(** * db_bridge.h: the transaction broker and the table accessor

    A shallow embedding of [src/common/db_bridge.h] (namespace [db]):
    the adapter interface [i_db_adapter], the broker [db_bridge_base]
    with its write-transaction notifications, the two value helpers and
    the accessor [key_value_accessor_base] with its size cache.

    Conventions of the embedding.
    - The adapter is an interface: a type class over the adapter's
      state, every virtual method a state-passing function.
    - C++ objects reachable through pointers (the receivers attached to
      the broker) live in an object store indexed by their address.
    - Methods run in a small state-and-exception monad over the
      [world]; a [throw] is the outcome [Thrown].
    - The world records the sequence of adapter calls and of delivered
      notifications, so that "calls the adapter", "notifies every
      accessor" and "without any adapter call" can be stated.
    - [uint64_t], [size_t] and [table_id] are [N]; the code does no
      arithmetic on them.  Byte buffers ([std::string], [const char*]
      with a length) are [string]. *)

From Stdlib Require Import NArith Ascii String.
From stdpp Require Import gmap strings list fin_maps sorting.

Local Open Scope N_scope.

(** ** Basic types *)

Definition table_id := N.
Definition tx_read_write : bool := false.
Definition tx_read_only : bool := true.

(** Identity of the calling thread. *)
Definition thread_id := nat.

(** Address of an [i_db_write_tx_notification_receiver] object. *)
Definition receiver_ptr := N.

(** ** What is taken from epee *)

Module epee.

(** Modelled from the spec: [epee::misc_utils::exclusive_access_helper]
    is not part of this file.  The spec describes it as a per-thread
    exclusive-mode flag toggled by the notifications: a mapping from
    thread identity to a boolean.  [run] hands the flag of the calling
    thread to its callback; [run_exclusively] runs its callback in
    every case (the locking it adds has no sequential content). *)
Record exclusive_access_helper := {
  m_exclusive_threads : gset thread_id
}.

Definition set_exclusive_mode_for_this_thread
    (thr : thread_id) (h : exclusive_access_helper) : exclusive_access_helper :=
  {| m_exclusive_threads := {[thr]} ∪ m_exclusive_threads h |}.

Definition clear_exclusive_mode_for_this_thread
    (thr : thread_id) (h : exclusive_access_helper) : exclusive_access_helper :=
  {| m_exclusive_threads := m_exclusive_threads h ∖ {[thr]} |}.

Definition is_exclusive_mode_for_this_thread
    (thr : thread_id) (h : exclusive_access_helper) : bool :=
  bool_decide (thr ∈ m_exclusive_threads h).

Definition run {R : Type}
    (thr : thread_id) (h : exclusive_access_helper) (cb : bool → R) : R :=
  cb (is_exclusive_mode_for_this_thread thr h).

Definition run_exclusively {R : Type}
    (h : exclusive_access_helper) (cb : unit → R) : R :=
  cb tt.

End epee.

(** ** Outcomes: a returned value or a thrown exception *)

Inductive outcome (X : Type) : Type :=
| Returned (x : X)
| Thrown (what : string).
Arguments Returned {X} x.
Arguments Thrown {X} what.

(** ** The adapter interface, [i_db_adapter]

    [visit_table] is left out: the only callers, [enumerate_keys] and
    [enumerate_items], have empty bodies in this file. *)

Class i_db_adapter (A : Type) := {
  adapter_open : string → A → bool * A;
  (* [tid] is an in/out parameter *)
  adapter_open_table : string → table_id → A → (bool * table_id) * A;
  adapter_clear_table : table_id → A → bool * A;
  adapter_get_table_size : table_id → A → N * A;
  adapter_close : A → bool * A;
  adapter_begin_transaction : bool → A → bool * A;
  adapter_commit_transaction : A → bool * A;
  adapter_abort_transaction : A → A;
  (* the result carries the final content of [out_buffer], which every
     caller in this file passes in empty *)
  adapter_get : table_id → string → A → (bool * string) * A;
  adapter_set : table_id → string → string → A → bool * A;
  adapter_erase : table_id → string → A → bool * A
}.

(** The calls that go through [m_db_adapter_ptr], as they are observed. *)
Inductive adapter_call :=
| call_open (db_name : string)
| call_open_table (table_name : string)
| call_clear_table (tid : table_id)
| call_get_table_size (tid : table_id)
| call_close
| call_begin_transaction (read_only_access : bool)
| call_commit_transaction
| call_abort_transaction
| call_get (tid : table_id) (key : string)
| call_set (tid : table_id) (key value : string)
| call_erase (tid : table_id) (key : string).

Inductive notification :=
| write_transaction_begin
| write_transaction_commit
| write_transaction_abort.

Inductive event :=
| ev_adapter (c : adapter_call)
| ev_notify (receiver : receiver_ptr) (n : notification).

(** ** Table keys: the two overloads of [tkey_to_pointer] *)

Class table_key (K : Type) := {
  (* the bytes [key_data, key_data + len) *)
  tkey_to_pointer : K → string
}.

#[export] Instance string_table_key : table_key string := {
  tkey_to_pointer key := key
}.

(** ** POD values

    A POD type has a fixed size and an object representation of that
    many bytes; [pod_read] is the copy out of a buffer of that size,
    [*reinterpret_cast<const T*>(buffer.data())]. *)

Class pod (T : Type) := {
  pod_sizeof : nat;
  pod_bytes : T → string;
  pod_read : string → T
}.

#[export] Instance pod_table_key {T : Type} `{pod T} : table_key T | 10 := {
  tkey_to_pointer tkey := pod_bytes tkey
}.

(** The laws of a POD type whose values satisfy [wf]. *)
Record pod_laws {T : Type} `{pod T} (wf : T → Prop) : Prop := {
  pod_bytes_length : ∀ v, String.length (pod_bytes v) = pod_sizeof;
  pod_read_bytes : ∀ v, wf v → pod_read (pod_bytes v) = v
}.

(** [uint64_t], little endian. *)
Fixpoint le_bytes (n : nat) (v : N) : string :=
  match n with
  | O => EmptyString
  | S n' => String (ascii_of_N (v mod 256)) (le_bytes n' (v / 256))
  end.

Fixpoint le_value (s : string) : N :=
  match s with
  | EmptyString => 0
  | String c s' => N_of_ascii c + 256 * le_value s'
  end.

Definition uint64_wf (v : N) : Prop := v < 2 ^ 64.

Definition uint64_pod : pod N := {|
  pod_sizeof := 8;
  pod_bytes := le_bytes 8;
  pod_read := le_value
|}.

(** ** The accessor object and the broker object *)

Record key_value_accessor_base := {
  m_tid : table_id;
  m_exclusive_runner : epee.exclusive_access_helper;
  m_cached_size : N;
  m_cached_size_is_valid : bool
}.

Record db_bridge_base (A : Type) := {
  m_db_adapter_ptr : A;
  m_db_opened : bool;
  m_attached_container_receivers : gset receiver_ptr
}.
Arguments m_db_adapter_ptr {A} _.
Arguments m_db_opened {A} _.
Arguments m_attached_container_receivers {A} _.

(** The broker, the objects that can receive its notifications, and
    what has been observed so far (oldest event first).  An accessor is
    bound to the one broker of the world ([m_dbb]). *)
Record world (A : Type) := {
  w_dbb : db_bridge_base A;
  w_objects : gmap receiver_ptr key_value_accessor_base;
  w_trace : list event
}.
Arguments w_dbb {A} _.
Arguments w_objects {A} _.
Arguments w_trace {A} _.

(** ** The monad of methods *)

Definition M (A X : Type) : Type := world A → outcome X * world A.

#[export] Instance M_ret {A} : MRet (M A) :=
  λ X (x : X) w, (Returned x, w).

#[export] Instance M_bind {A} : MBind (M A) :=
  λ X Y (k : X → M A Y) (m : M A X) w,
    match m w with
    | (Returned x, w') => k x w'
    | (Thrown what, w') => (Thrown what, w')
    end.

Definition throw {A X} (what : string) : M A X :=
  λ w, (Thrown what, w).

(** [CHECK_AND_ASSERT_THROW_MES(expr, message)] *)
Definition CHECK_AND_ASSERT_THROW_MES {A} (expr : bool) (message : string) : M A unit :=
  if expr then mret tt else throw message.

(** The events a run appends to the trace. *)
Definition emitted {A X} (m : M A X) (w : world A) (evs : list event) : Prop :=
  w_trace (m w).2 = w_trace w ++ evs.

(** ** The notification handlers of the accessor
    ([i_db_write_tx_notification_receiver]) *)

Definition on_write_transaction_begin
    (thr : thread_id) (self : key_value_accessor_base) : key_value_accessor_base :=
  {| m_tid := m_tid self;
     m_exclusive_runner :=
       epee.set_exclusive_mode_for_this_thread thr (m_exclusive_runner self);
     m_cached_size := m_cached_size self;
     m_cached_size_is_valid := m_cached_size_is_valid self |}.

Definition on_write_transaction_abort
    (thr : thread_id) (self : key_value_accessor_base) : key_value_accessor_base :=
  {| m_tid := m_tid self;
     m_exclusive_runner :=
       epee.clear_exclusive_mode_for_this_thread thr (m_exclusive_runner self);
     m_cached_size := m_cached_size self;
     m_cached_size_is_valid := m_cached_size_is_valid self |}.

Definition on_write_transaction_commit
    (thr : thread_id) (self : key_value_accessor_base) : key_value_accessor_base :=
  {| m_tid := m_tid self;
     m_exclusive_runner :=
       epee.clear_exclusive_mode_for_this_thread thr (m_exclusive_runner self);
     m_cached_size := m_cached_size self;
     m_cached_size_is_valid := m_cached_size_is_valid self |}.

(** Virtual dispatch of a notification. *)
Definition handler (thr : thread_id) (n : notification)
    : key_value_accessor_base → key_value_accessor_base :=
  match n with
  | write_transaction_begin => on_write_transaction_begin thr
  | write_transaction_commit => on_write_transaction_commit thr
  | write_transaction_abort => on_write_transaction_abort thr
  end.

(** ** db_bridge_base

    [get_serializable_object] and [set_serializable_object] go through
    the blob codec of [currency_format_utils.h], which is not part of
    this file; they come further down, with the codec as a parameter,
    and so does the [std::string] overload of [tkey_from_pointer],
    which nothing in this file calls. *)

Module bridge.
Section methods.
Context {A : Type} `{!i_db_adapter A}.

Definition with_adapter (a : A) (b : db_bridge_base A) : db_bridge_base A :=
  {| m_db_adapter_ptr := a;
     m_db_opened := m_db_opened b;
     m_attached_container_receivers := m_attached_container_receivers b |}.

Definition with_opened (o : bool) (b : db_bridge_base A) : db_bridge_base A :=
  {| m_db_adapter_ptr := m_db_adapter_ptr b;
     m_db_opened := o;
     m_attached_container_receivers := m_attached_container_receivers b |}.

Definition with_receivers (s : gset receiver_ptr) (b : db_bridge_base A)
    : db_bridge_base A :=
  {| m_db_adapter_ptr := m_db_adapter_ptr b;
     m_db_opened := m_db_opened b;
     m_attached_container_receivers := s |}.

Definition update_dbb (f : db_bridge_base A → db_bridge_base A) : M A unit :=
  λ w, (Returned tt,
        {| w_dbb := f (w_dbb w); w_objects := w_objects w; w_trace := w_trace w |}).

Definition read_dbb {X} (f : db_bridge_base A → X) : M A X :=
  λ w, (Returned (f (w_dbb w)), w).

(** A call [m_db_adapter_ptr->op(...)]. *)
Definition via_adapter {X} (c : adapter_call) (op : A → X * A) : M A X :=
  λ w, let r := op (m_db_adapter_ptr (w_dbb w)) in
       (Returned r.1,
        {| w_dbb := with_adapter r.2 (w_dbb w);
           w_objects := w_objects w;
           w_trace := w_trace w ++ [ev_adapter c] |}).

(** One iteration of [for (auto c : m_attached_container_receivers)]:
    the call [c->on_write_transaction_...()]. *)
Definition deliver (thr : thread_id) (n : notification)
    (w : world A) (c : receiver_ptr) : world A :=
  {| w_dbb := w_dbb w;
     w_objects := alter (handler thr n) c (w_objects w);
     w_trace := w_trace w ++ [ev_notify c n] |}.

(** A [std::set] of pointers is walked in ascending order. *)
Definition receivers_in_order (s : gset receiver_ptr) : list receiver_ptr :=
  merge_sort N.le (elements s).

(** The loop under [CRITICAL_REGION_LOCAL(m_attached_container_receivers_lock)];
    the lock has no sequential content. *)
Definition notify_receivers (thr : thread_id) (n : notification) : M A unit :=
  λ w, (Returned tt,
        foldl (deliver thr n) w
          (receivers_in_order (m_attached_container_receivers (w_dbb w)))).

Definition begin_db_transaction (thr : thread_id) (read_only_access : bool) : M A bool :=
  r ← via_adapter (call_begin_transaction read_only_access)
        (adapter_begin_transaction read_only_access);
  notify_receivers thr write_transaction_begin;;
  mret r.

Definition commit_db_transaction (thr : thread_id) : M A unit :=
  r ← via_adapter call_commit_transaction adapter_commit_transaction;
  CHECK_AND_ASSERT_THROW_MES r "commit_transaction failed";;
  notify_receivers thr write_transaction_commit.

Definition abort_db_transaction (thr : thread_id) : M A unit :=
  via_adapter call_abort_transaction (λ a, (tt, adapter_abort_transaction a));;
  notify_receivers thr write_transaction_abort.

Definition is_open : M A bool := read_dbb m_db_opened.

Definition open (db_name : string) : M A bool :=
  r ← via_adapter (call_open db_name) (adapter_open db_name);
  update_dbb (with_opened r);;
  read_dbb m_db_opened.

Definition close : M A bool :=
  update_dbb (with_opened false);;
  via_adapter call_close adapter_close.

Definition clear (tid : table_id) : M A bool :=
  via_adapter (call_clear_table tid) (adapter_clear_table tid).

Definition size (tid : table_id) : M A N :=
  via_adapter (call_get_table_size tid) (adapter_get_table_size tid).

Definition erase {K} `{!table_key K} (tid : table_id) (tkey : K) : M A bool :=
  via_adapter (call_erase tid (tkey_to_pointer tkey))
    (adapter_erase tid (tkey_to_pointer tkey)).

(** [obj] is an in/out parameter: the result carries its final value. *)
Definition get_pod_object {K T} `{!table_key K} `{!pod T}
    (tid : table_id) (tkey : K) (obj : T) : M A (bool * T) :=
  r ← via_adapter (call_get tid (tkey_to_pointer tkey))
        (adapter_get tid (tkey_to_pointer tkey));
  let '(found, buffer) := r in
  if negb found then mret (false, obj)
  else
    (* CHECK_AND_ASSERT_MES(sizeof(t_object_pod_t) == buffer.size(), false, ...) *)
    if negb (Nat.eqb pod_sizeof (String.length buffer)) then mret (false, obj)
    else mret (true, pod_read buffer).

Definition set_pod_object {K T} `{!table_key K} `{!pod T}
    (tid : table_id) (tkey : K) (obj : T) : M A bool :=
  r ← via_adapter (call_set tid (tkey_to_pointer tkey) (pod_bytes obj))
        (adapter_set tid (tkey_to_pointer tkey) (pod_bytes obj));
  if negb r then mret false else mret true.

Definition attach_container_receiver (receiver : receiver_ptr) : M A unit :=
  (* insert(receiver).second *)
  s ← read_dbb m_attached_container_receivers;
  let r := negb (bool_decide (receiver ∈ s)) in
  update_dbb (with_receivers ({[receiver]} ∪ s));;
  CHECK_AND_ASSERT_THROW_MES r "failed, container already attached".

Definition detach_container_receiver (receiver : receiver_ptr) : M A unit :=
  (* erase(receiver) == 1 *)
  s ← read_dbb m_attached_container_receivers;
  let r := bool_decide (receiver ∈ s) in
  update_dbb (with_receivers (s ∖ {[receiver]}));;
  CHECK_AND_ASSERT_THROW_MES r "failed, container has never been attached".

End methods.
End bridge.


(** ** The value helpers

    Both helpers have [// TODO] bodies in this file: [get] returns
    [nullptr], [set] does nothing and [tvalue_from_pointer] returns
    [true] without writing [v].  A [std::shared_ptr<const value_t>] is
    an [option]. *)

Module pod_object_value_helper.
Section methods.
Context {A : Type} `{!i_db_adapter A}.

Definition tvalue_from_pointer {V} (p : string) (v : V) : bool * V := (true, v).

Definition get {K V} (tid : table_id) (k : K) : M A (option V) := mret None.

Definition set {K V} (tid : table_id) (k : K) (v : V) : M A unit := mret tt.

End methods.
End pod_object_value_helper.

Module serializable_object_value_helper.
Section methods.
Context {A : Type} `{!i_db_adapter A}.

Definition tvalue_from_pointer {V} (p : string) (v : V) : bool * V := (true, v).

Definition get {K V} (tid : table_id) (k : K) : M A (option V) := mret None.

Definition set {K V} (tid : table_id) (k : K) (v : V) : M A unit := mret tt.

End methods.
End serializable_object_value_helper.

(** [value_type_helper_selector<true>] is the serializable helper,
    [value_type_helper_selector<false>] the POD helper. *)
Module value_type_helper_selector.
Section methods.
Context {A : Type} `{!i_db_adapter A}.

Definition get {K V} (value_type_serializable : bool)
    (tid : table_id) (k : K) : M A (option V) :=
  if value_type_serializable
  then serializable_object_value_helper.get tid k
  else pod_object_value_helper.get tid k.

Definition set {K V} (value_type_serializable : bool)
    (tid : table_id) (k : K) (v : V) : M A unit :=
  if value_type_serializable
  then serializable_object_value_helper.set tid k v
  else pod_object_value_helper.set tid k v.

End methods.
End value_type_helper_selector.

(** ** key_value_accessor_base

    A method takes the object [*this] and returns it as the method
    leaves it ([size] is [const] but writes the [mutable] cache).  The
    wrappers [begin_transaction], [commit_transaction] and
    [abort_transaction] and the destructor name members that
    [db_bridge_base] does not declare ([begin_transaction],
    [commit_transaction], [abort_transaction],
    [dettach_container_receiver]); they are not embedded. *)

Module accessor.
Section methods.
Context {A : Type} `{!i_db_adapter A}.
Context {key_t value_t : Type} `{!table_key key_t}.
Context (value_type_serializable : bool).

Definition with_tid (tid : table_id) (self : key_value_accessor_base)
    : key_value_accessor_base :=
  {| m_tid := tid;
     m_exclusive_runner := m_exclusive_runner self;
     m_cached_size := m_cached_size self;
     m_cached_size_is_valid := m_cached_size_is_valid self |}.

Definition with_cached_size (n : N) (self : key_value_accessor_base)
    : key_value_accessor_base :=
  {| m_tid := m_tid self;
     m_exclusive_runner := m_exclusive_runner self;
     m_cached_size := n;
     m_cached_size_is_valid := m_cached_size_is_valid self |}.

Definition with_cached_size_is_valid (v : bool) (self : key_value_accessor_base)
    : key_value_accessor_base :=
  {| m_tid := m_tid self;
     m_exclusive_runner := m_exclusive_runner self;
     m_cached_size := m_cached_size self;
     m_cached_size_is_valid := v |}.

(** The object the constructor's initializer list builds. *)
Definition fresh : key_value_accessor_base :=
  {| m_tid := 0;
     m_exclusive_runner := {| epee.m_exclusive_threads := ∅ |};
     m_cached_size := 0;
     m_cached_size_is_valid := false |}.

(** The constructor, for the object at address [this]: the member
    initialisers write the fields, then the body attaches the object.
    When the attach throws, the fields at [this] have been written
    already. *)
Definition place (this : receiver_ptr) (obj : key_value_accessor_base) : M A unit :=
  λ w, (Returned tt,
        {| w_dbb := w_dbb w;
           w_objects := <[this := obj]> (w_objects w);
           w_trace := w_trace w |}).

Definition construct (this : receiver_ptr) : M A unit :=
  place this fresh;;
  bridge.attach_container_receiver this.

Definition init (table_name : string) (self : key_value_accessor_base)
    : M A (bool * key_value_accessor_base) :=
  r ← bridge.via_adapter (call_open_table table_name)
        (adapter_open_table table_name (m_tid self));
  mret (r.1, with_tid r.2 self).

Definition enumerate_keys {callback_t} (callback : callback_t)
    (self : key_value_accessor_base) : M A unit := mret tt.

Definition enumerate_items {callback_t} (callback : callback_t)
    (self : key_value_accessor_base) : M A unit := mret tt.

Definition set (key : key_t) (value : value_t) (self : key_value_accessor_base)
    : M A key_value_accessor_base :=
  let self := with_cached_size_is_valid false self in
  value_type_helper_selector.set value_type_serializable (m_tid self) key value;;
  mret self.

Definition get (key : key_t) (self : key_value_accessor_base) : M A (option value_t) :=
  value_type_helper_selector.get value_type_serializable (m_tid self) key.

Definition size (thr : thread_id) (self : key_value_accessor_base)
    : M A (N * key_value_accessor_base) :=
  epee.run thr (m_exclusive_runner self) (λ exclusive_mode : bool,
    if exclusive_mode && m_cached_size_is_valid self
    then mret (m_cached_size self, self)
    else
      size ← bridge.size (m_tid self);
      if exclusive_mode
      then mret (size, with_cached_size_is_valid true (with_cached_size size self))
      else mret (size, self)).

Definition size_no_cache (self : key_value_accessor_base) : M A N :=
  bridge.size (m_tid self).

(** The lambda that [clear], [erase_validate] and [erase] hand to
    [run_exclusively]. *)
Definition invalidate_cache (self : key_value_accessor_base) (_ : unit)
    : bool * key_value_accessor_base :=
  (true, with_cached_size_is_valid false self).

(** [clear] returns [size_t]: the [true] it returns is 1. *)
Definition clear (self : key_value_accessor_base) : M A (N * key_value_accessor_base) :=
  bridge.clear (m_tid self);;
  let self := (epee.run_exclusively (m_exclusive_runner self) (invalidate_cache self)).2 in
  mret (1, self).

Definition erase_validate (k : key_t) (self : key_value_accessor_base)
    : M A (bool * key_value_accessor_base) :=
  res_ptr ← get k self;
  bridge.erase (m_tid self) k;;
  let self := (epee.run_exclusively (m_exclusive_runner self) (invalidate_cache self)).2 in
  mret (bool_decide (is_Some res_ptr), self).

Definition erase (k : key_t) (self : key_value_accessor_base)
    : M A key_value_accessor_base :=
  bridge.erase (m_tid self) k;;
  let self := (epee.run_exclusively (m_exclusive_runner self) (invalidate_cache self)).2 in
  mret self.

(** [operator[]] *)
Definition index (k : key_t) (self : key_value_accessor_base) : M A value_t :=
  r ← get k self;
  match r with
  | Some v => mret v
  | None => throw "Out of range"
  end.

End methods.
End accessor.

(** ** A reference adapter

    Modelled from the spec: the storage engine behind [i_db_adapter] is
    not part of this file.  This in-memory adapter follows the adapter
    contract of the spec (section 4.1): [open_table] is idempotent,
    [close] after [close] returns false, at most one transaction is
    open and a second [begin] is rejected, [abort] discards the writes
    made since [begin], [get] reports an absent key by returning false,
    [erase] of a missing key returns false, and every failure is a
    boolean result. *)

Module mem_adapter.

Record mem_db := {
  md_opened : bool;
  md_names : gmap string table_id;
  md_tables : gmap table_id (gmap string string);
  (* the tables as they were when the open transaction began *)
  md_snapshot : option (gmap table_id (gmap string string))
}.

Definition empty_db : mem_db :=
  {| md_opened := false; md_names := ∅; md_tables := ∅; md_snapshot := None |}.

Definition with_tables (t : gmap table_id (gmap string string)) (d : mem_db) : mem_db :=
  {| md_opened := md_opened d; md_names := md_names d;
     md_tables := t; md_snapshot := md_snapshot d |}.

Definition open (db_name : string) (d : mem_db) : bool * mem_db :=
  if md_opened d then (false, d)
  else (true, {| md_opened := true; md_names := md_names d;
                 md_tables := md_tables d; md_snapshot := None |}).

Definition close (d : mem_db) : bool * mem_db :=
  if md_opened d
  then (true, {| md_opened := false; md_names := md_names d;
                 md_tables := md_tables d; md_snapshot := None |})
  else (false, d).

Definition open_table (table_name : string) (tid : table_id) (d : mem_db)
    : (bool * table_id) * mem_db :=
  if negb (md_opened d) then ((false, tid), d)
  else match md_names d !! table_name with
       | Some id => ((true, id), d)
       | None =>
           let id := N.of_nat (size (md_names d)) in
           ((true, id),
            {| md_opened := md_opened d;
               md_names := <[table_name := id]> (md_names d);
               md_tables := <[id := ∅]> (md_tables d);
               md_snapshot := md_snapshot d |})
       end.

Definition clear_table (tid : table_id) (d : mem_db) : bool * mem_db :=
  match md_tables d !! tid with
  | Some _ => (true, with_tables (<[tid := ∅]> (md_tables d)) d)
  | None => (false, d)
  end.

Definition get_table_size (tid : table_id) (d : mem_db) : N * mem_db :=
  (N.of_nat (size (default ∅ (md_tables d !! tid))), d).

Definition begin_transaction (read_only_access : bool) (d : mem_db) : bool * mem_db :=
  if negb (md_opened d) then (false, d)
  else match md_snapshot d with
       | Some _ => (false, d)
       | None => (true, {| md_opened := md_opened d; md_names := md_names d;
                           md_tables := md_tables d;
                           md_snapshot := Some (md_tables d) |})
       end.

Definition commit_transaction (d : mem_db) : bool * mem_db :=
  match md_snapshot d with
  | Some _ => (true, {| md_opened := md_opened d; md_names := md_names d;
                        md_tables := md_tables d; md_snapshot := None |})
  | None => (false, d)
  end.

Definition abort_transaction (d : mem_db) : mem_db :=
  match md_snapshot d with
  | Some t => {| md_opened := md_opened d; md_names := md_names d;
                 md_tables := t; md_snapshot := None |}
  | None => d
  end.

Definition get (tid : table_id) (key : string) (d : mem_db) : (bool * string) * mem_db :=
  match md_tables d !! tid ≫= (.!! key) with
  | Some value => ((true, value), d)
  | None => ((false, EmptyString), d)
  end.

Definition set (tid : table_id) (key value : string) (d : mem_db) : bool * mem_db :=
  match md_tables d !! tid with
  | Some t => (true, with_tables (<[tid := <[key := value]> t]> (md_tables d)) d)
  | None => (false, d)
  end.

Definition erase (tid : table_id) (key : string) (d : mem_db) : bool * mem_db :=
  match md_tables d !! tid with
  | Some t =>
      match t !! key with
      | Some _ => (true, with_tables (<[tid := delete key t]> (md_tables d)) d)
      | None => (false, d)
      end
  | None => (false, d)
  end.

#[global] Instance adapter : i_db_adapter mem_db := {|
  adapter_open := open;
  adapter_open_table := open_table;
  adapter_clear_table := clear_table;
  adapter_get_table_size := get_table_size;
  adapter_close := close;
  adapter_begin_transaction := begin_transaction;
  adapter_commit_transaction := commit_transaction;
  adapter_abort_transaction := abort_transaction;
  adapter_get := get;
  adapter_set := set;
  adapter_erase := erase
|}.

(** Whether [key] is stored in table [tid]. *)
Definition present (tid : table_id) (key : string) (d : mem_db) : bool :=
  bool_decide (is_Some (md_tables d !! tid ≫= (.!! key))).

End mem_adapter.

(** ** Worlds to run the methods in *)

Definition new_world {A} (adapter_ptr : A) : world A :=
  {| w_dbb := {| m_db_adapter_ptr := adapter_ptr;
                 m_db_opened := false;
                 m_attached_container_receivers := ∅ |};
     w_objects := ∅;
     w_trace := [] |}.

(** The world a run leaves, whatever its outcome. *)
Definition after {A X} (m : M A X) (w : world A) : world A := (m w).2.

(** An opened in-memory database holding the table "accounts" (id 0)
    with the entry "alice". *)
Definition accounts_db : mem_adapter.mem_db :=
  {| mem_adapter.md_opened := true;
     mem_adapter.md_names := {["accounts"%string := 0]};
     mem_adapter.md_tables := {[0 := {["alice"%string := "100"%string]}]};
     mem_adapter.md_snapshot := None |}.

(** A broker over [accounts_db] with two accessors constructed at the
    addresses 1 and 2. *)
Definition two_accessors : world mem_adapter.mem_db :=
  after (accessor.construct 1;; accessor.construct 2) (new_world accounts_db).

(** Calling a method on the object at address [this]: the object is
    read from the store and written back as the method leaves it.  A
    call through a pointer to no object is undefined in C++; it is
    given the outcome [Thrown] here and no run below reaches it. *)
Definition call_method {A X} (this : receiver_ptr)
    (method : key_value_accessor_base → M A (X * key_value_accessor_base)) : M A X :=
  λ w, match w_objects w !! this with
       | Some self => (r ← method self; accessor.place this r.2;; mret r.1) w
       | None => (Thrown "no object at this address", w)
       end.

(** An adapter that returns exactly the byte buffer last stored for a
    table and key: after a [set] that succeeded, [get] of the same
    table and key succeeds with the bytes that were set. *)
Definition returns_last_stored (A : Type) `{!i_db_adapter A} : Prop :=
  ∀ (a : A) (tid : table_id) (key value : string),
    (adapter_set tid key value a).1 = true →
    (adapter_get tid key (adapter_set tid key value a).2).1 = (true, value).

(** Thread 7 begins a write transaction, stores "bob" through the
    broker and asks the accessor at address 1 for its [size()]: the
    accessor now caches the size 2. *)
Definition size_cached_in_transaction : world mem_adapter.mem_db :=
  after (bridge.begin_db_transaction 7%nat tx_read_write;;
         bridge.set_pod_object (pod0 := uint64_pod) 0 "bob"%string 515;;
         call_method 1 (accessor.size 7%nat))
    two_accessors.

Definition caching_accessor : key_value_accessor_base :=
  {| m_tid := 0;
     m_exclusive_runner := {| epee.m_exclusive_threads := {[7%nat]} |};
     m_cached_size := 2;
     m_cached_size_is_valid := true |}.

(** ** The rest of the header

    The functions below complete the embedding: the read side of the
    string keys, the typed helpers for serializable objects, and the
    accessor's [explicit_set] and [explicit_get]. *)

(** [tkey_from_pointer], the [std::string] overload.  [pointer] is
    [None] for [nullptr] and otherwise holds the bytes that can be read
    at the pointer, of which there must be at least [len].  [key_out]
    is written on success only, so it is the result.  The POD overload
    applies [static_cast<tkey_pod_t*>] to a [const void*], which no
    instantiation compiles; it is not embedded. *)
Definition tkey_from_pointer_string {A : Type}
    (pointer : option string) (len : N) : M A string :=
  CHECK_AND_ASSERT_THROW_MES (bool_decide (is_Some pointer)) "pointer is null";;
  mret (substring 0 (N.to_nat len) (default EmptyString pointer)).

(** The blob codec of [currency_format_utils.h] is not part of this
    file; it is a parameter.  [t_serializable_object_to_blob] gives the
    content of the buffer it fills (whatever the call returns is
    discarded by its caller here); [t_unserializable_object_from_blob]
    takes [obj] as an in/out parameter. *)
Class blob_codec (T : Type) := {
  t_serializable_object_to_blob : T → string;
  t_unserializable_object_from_blob : T → string → bool * T
}.

(** The codec reads back what it wrote. *)
Definition codec_reads_back (T : Type) `{!blob_codec T} : Prop :=
  ∀ (v obj : T),
    t_unserializable_object_from_blob obj (t_serializable_object_to_blob v) = (true, v).

Section serializable_objects.
Context {A : Type} `{!i_db_adapter A}.
Context {K T : Type} `{!table_key K} `{!blob_codec T}.

Definition get_serializable_object
    (tid : table_id) (tkey : K) (obj : T) : M A (bool * T) :=
  r ← bridge.via_adapter (call_get tid (tkey_to_pointer tkey))
        (adapter_get tid (tkey_to_pointer tkey));
  let '(found, buffer) := r in
  if negb found then mret (false, obj)
  else mret (t_unserializable_object_from_blob obj buffer).

Definition set_serializable_object
    (tid : table_id) (tkey : K) (obj : T) : M A bool :=
  let buffer := t_serializable_object_to_blob obj in
  bridge.via_adapter (call_set tid (tkey_to_pointer tkey) buffer)
    (adapter_set tid (tkey_to_pointer tkey) buffer).

End serializable_objects.

(** The classes this file declares that can stand for
    [object_value_helper_t]. *)
Inductive object_value_helper_t :=
| use_pod_object_value_helper
| use_serializable_object_value_helper.

Section explicit_accessors.
Context {A : Type} `{!i_db_adapter A}.
Context {explicit_key_t explicit_value_t : Type}.

Definition explicit_set (object_value_helper : object_value_helper_t)
    (key : explicit_key_t) (value : explicit_value_t)
    (self : key_value_accessor_base) : M A key_value_accessor_base :=
  let self := accessor.with_cached_size_is_valid false self in
  match object_value_helper with
  | use_pod_object_value_helper =>
      pod_object_value_helper.set (m_tid self) key value
  | use_serializable_object_value_helper =>
      serializable_object_value_helper.set (m_tid self) key value
  end;;
  mret self.

Definition explicit_get (object_value_helper : object_value_helper_t)
    (key : explicit_key_t) (self : key_value_accessor_base)
    : M A (option explicit_value_t) :=
  match object_value_helper with
  | use_pod_object_value_helper =>
      pod_object_value_helper.get (m_tid self) key
  | use_serializable_object_value_helper =>
      serializable_object_value_helper.get (m_tid self) key
  end.

End explicit_accessors.

(** Strings as serializable objects whose blob is the string itself. *)
Definition string_blob_codec : blob_codec string := {|
  t_serializable_object_to_blob v := v;
  t_unserializable_object_from_blob obj buffer := (true, buffer)
|}.

(** A broker over a database that was never opened, with one accessor
    at address 1. *)
Definition unopened_world : world mem_adapter.mem_db :=
  after (accessor.construct 1) (new_world mem_adapter.empty_db).

(** * Properties *)

#[local] Set Warnings "-clear-no-such-hyp".

(** ** Little-endian bytes *)

Lemma le_bytes_length (n : nat) (v : N) : String.length (le_bytes n v) = n.
Proof.
  revert v. induction n as [|n IH]; intros v; simpl; [done|].
  by rewrite IH.
Qed.

Lemma le_value_le_bytes (n : nat) (v : N) :
  le_value (le_bytes n v) = v mod 256 ^ N.of_nat n.
Proof.
  revert v. induction n as [|n IH]; intros v.
  - simpl. by rewrite N.mod_1_r.
  - cbn [le_bytes le_value].
    rewrite N_ascii_embedding by (apply N.mod_lt; lia).
    rewrite IH, Nat2N.inj_succ, N.pow_succ_r'.
    by rewrite N.Div0.mod_mul_r.
Qed.

Lemma uint64_pod_laws : pod_laws (H := uint64_pod) uint64_wf.
Proof.
  split.
  - intros v. apply (le_bytes_length 8).
  - intros v Hv. change (le_value (le_bytes 8 v) = v).
    rewrite le_value_le_bytes.
    apply N.mod_small. exact Hv.
Qed.

(** ** The notification loop *)

Section notification_loop.
Context {A : Type} `{!i_db_adapter A}.
Implicit Types (w : world A) (l : list receiver_ptr) (c : receiver_ptr).

Lemma receivers_in_order_elem c (s : gset receiver_ptr) :
  c ∈ bridge.receivers_in_order s ↔ c ∈ s.
Proof.
  unfold bridge.receivers_in_order.
  rewrite merge_sort_Permutation. apply elem_of_elements.
Qed.

Lemma receivers_in_order_NoDup (s : gset receiver_ptr) :
  NoDup (bridge.receivers_in_order s).
Proof.
  unfold bridge.receivers_in_order.
  rewrite merge_sort_Permutation. apply NoDup_elements.
Qed.

Lemma receivers_in_order_sorted (s : gset receiver_ptr) :
  Sorted N.le (bridge.receivers_in_order s).
Proof. apply Sorted_merge_sort. intros x y. lia. Qed.

Lemma deliver_all_dbb thr n l w :
  w_dbb (foldl (bridge.deliver thr n) w l) = w_dbb w.
Proof. revert w. induction l as [|c l IH]; intros w; simpl; [done|]. by rewrite IH. Qed.

Lemma deliver_all_trace thr n l w :
  w_trace (foldl (bridge.deliver thr n) w l)
  = w_trace w ++ map (λ c, ev_notify c n) l.
Proof.
  revert w. induction l as [|c l IH]; intros w; simpl.
  - by rewrite app_nil_r.
  - rewrite IH. simpl. by rewrite <- app_assoc.
Qed.

(** Each object in the list gets the handler once, the others are left
    alone. *)
Lemma deliver_all_objects thr n l w c :
  NoDup l →
  w_objects (foldl (bridge.deliver thr n) w l) !! c
  = if bool_decide (c ∈ l) then handler thr n <$> w_objects w !! c
    else w_objects w !! c.
Proof.
  intros Hnd. revert w. induction Hnd as [|x l Hx Hnd IH]; intros w.
  - cbn [foldl]. rewrite bool_decide_eq_false_2; [done | apply not_elem_of_nil].
  - cbn [foldl]. rewrite IH. cbn [bridge.deliver w_objects].
    rewrite lookup_alter. destruct (decide (x = c)) as [->|Hne].
    + rewrite (bool_decide_eq_false_2 (c ∈ l)) by done.
      rewrite bool_decide_eq_true_2; [done | by left].
    + destruct (decide (c ∈ l)) as [Hin|Hin].
      * rewrite !bool_decide_eq_true_2; [done | by right | done].
      * rewrite !bool_decide_eq_false_2; [done | | done].
        intros [->|?]%elem_of_cons; done.
Qed.

Lemma notify_receivers_run thr n w :
  bridge.notify_receivers thr n w
  = (Returned tt,
     foldl (bridge.deliver thr n) w
       (bridge.receivers_in_order (m_attached_container_receivers (w_dbb w)))).
Proof. reflexivity. Qed.

Lemma notify_receivers_objects thr n w c :
  w_objects (after (bridge.notify_receivers thr n) w) !! c
  = if bool_decide (c ∈ m_attached_container_receivers (w_dbb w))
    then handler thr n <$> w_objects w !! c
    else w_objects w !! c.
Proof.
  unfold after. rewrite notify_receivers_run. cbn [snd].
  rewrite deliver_all_objects by apply receivers_in_order_NoDup.
  by rewrite (bool_decide_ext _ _ (receivers_in_order_elem c _)).
Qed.

End notification_loop.

(** ** Running the monad *)

Ltac run_methods :=
  unfold after, emitted,
    bridge.begin_db_transaction, bridge.commit_db_transaction,
    bridge.abort_db_transaction, bridge.is_open, bridge.open, bridge.close,
    bridge.clear, bridge.size, bridge.erase, bridge.get_pod_object,
    bridge.set_pod_object, bridge.attach_container_receiver,
    bridge.detach_container_receiver, bridge.via_adapter, bridge.update_dbb,
    bridge.read_dbb, CHECK_AND_ASSERT_THROW_MES, throw,
    mbind, M_bind, mret, M_ret;
  cbn [fst snd w_dbb w_objects w_trace m_db_adapter_ptr m_db_opened
       m_attached_container_receivers bridge.with_adapter bridge.with_opened
       bridge.with_receivers].

(** ** The broker's transaction methods *)

Section broker.
Context {A : Type} `{!i_db_adapter A}.
Implicit Types (w : world A) (c : receiver_ptr).

(** C3: [begin_db_transaction] calls the adapter's [begin_transaction],
    then delivers [on_write_transaction_begin] to every attached
    receiver, once each, whatever the adapter returned, and returns the
    adapter's result.  The trace shows the adapter call followed by one
    notification per attached receiver; each attached object is the
    handler's image of what it was, so it is in exclusive mode for the
    calling thread even after a failed begin. *)
Theorem begin_db_transaction_notifies_regardless
    (thr : thread_id) (read_only_access : bool) w :
  let r := adapter_begin_transaction read_only_access (m_db_adapter_ptr (w_dbb w)) in
  let s := m_attached_container_receivers (w_dbb w) in
  let w' := after (bridge.begin_db_transaction thr read_only_access) w in
  (bridge.begin_db_transaction thr read_only_access w).1 = Returned r.1
  ∧ m_db_adapter_ptr (w_dbb w') = r.2
  ∧ m_attached_container_receivers (w_dbb w') = s
  ∧ w_trace w'
    = w_trace w ++ ev_adapter (call_begin_transaction read_only_access)
        :: map (λ c, ev_notify c write_transaction_begin) (bridge.receivers_in_order s)
  ∧ (∀ c, c ∈ bridge.receivers_in_order s ↔ c ∈ s)
  ∧ NoDup (bridge.receivers_in_order s)
  ∧ (∀ c, w_objects w' !! c
          = if bool_decide (c ∈ s)
            then on_write_transaction_begin thr <$> w_objects w !! c
            else w_objects w !! c)
  ∧ (∀ c self', c ∈ s → w_objects w' !! c = Some self' →
       epee.is_exclusive_mode_for_this_thread thr (m_exclusive_runner self') = true).
Proof.
  intros r s w'.
  assert (Hobj : ∀ c, w_objects w' !! c
          = if bool_decide (c ∈ s)
            then on_write_transaction_begin thr <$> w_objects w !! c
            else w_objects w !! c).
  { intros c. subst w'. run_methods. rewrite notify_receivers_run. cbn [fst snd].
    rewrite deliver_all_objects by apply receivers_in_order_NoDup.
    by rewrite (bool_decide_ext _ _ (receivers_in_order_elem c _)). }
  repeat split.
  - subst w'. run_methods. rewrite notify_receivers_run. cbn [fst snd].
    by rewrite deliver_all_dbb.
  - subst w'. run_methods. rewrite notify_receivers_run. cbn [fst snd].
    by rewrite deliver_all_dbb.
  - subst w'. run_methods. rewrite notify_receivers_run. cbn [fst snd].
    rewrite deliver_all_trace. cbn [w_trace w_dbb m_attached_container_receivers].
    by rewrite <- app_assoc.
  - apply receivers_in_order_elem.
  - apply receivers_in_order_elem.
  - apply receivers_in_order_NoDup.
  - exact Hobj.
  - intros c self' Hc. rewrite Hobj, bool_decide_eq_true_2 by done.
    destruct (w_objects w !! c) as [self|]; [|done].
    intros [= <-]. unfold epee.is_exclusive_mode_for_this_thread. cbn.
    apply bool_decide_eq_true_2. set_solver.
Qed.

End broker.

Lemma size_remove (s : gset receiver_ptr) (r : receiver_ptr) :
  r ∈ s → size s = S (size (s ∖ {[r]})).
Proof.
  intros Hr.
  assert (Hs : s = {[r]} ∪ s ∖ {[r]}) by (apply union_difference_L; set_solver).
  rewrite Hs at 1. rewrite size_union, size_singleton; [done | set_solver].
Qed.

Lemma size_add (s : gset receiver_ptr) (r : receiver_ptr) :
  r ∉ s → size ({[r]} ∪ s) = S (size s).
Proof.
  intros Hr. rewrite size_union, size_singleton; [done | set_solver].
Qed.

Section broker_commit_close_attach.
Context {A : Type} `{!i_db_adapter A}.
Implicit Types (w : world A) (c : receiver_ptr).

(** C6: [commit_db_transaction] calls the adapter's
    [commit_transaction].  When the adapter reports failure it throws
    "commit_transaction failed" and no receiver is notified: the trace
    gains the adapter call only and the objects are unchanged.  When the
    adapter reports success it returns after delivering
    [on_write_transaction_commit] to every attached receiver. *)
Theorem commit_db_transaction_throws_or_notifies (thr : thread_id) w :
  let r := adapter_commit_transaction (m_db_adapter_ptr (w_dbb w)) in
  let s := m_attached_container_receivers (w_dbb w) in
  let w' := after (bridge.commit_db_transaction thr) w in
  m_db_adapter_ptr (w_dbb w') = r.2
  ∧ if r.1
    then (bridge.commit_db_transaction thr w).1 = Returned tt
         ∧ w_trace w'
           = w_trace w ++ ev_adapter call_commit_transaction
               :: map (λ c, ev_notify c write_transaction_commit)
                    (bridge.receivers_in_order s)
         ∧ (∀ c, w_objects w' !! c
                 = if bool_decide (c ∈ s)
                   then on_write_transaction_commit thr <$> w_objects w !! c
                   else w_objects w !! c)
    else (bridge.commit_db_transaction thr w).1 = Thrown "commit_transaction failed"
         ∧ w_trace w' = w_trace w ++ [ev_adapter call_commit_transaction]
         ∧ w_objects w' = w_objects w.
Proof.
  intros r s w'. subst w'. run_methods. fold r.
  destruct (r.1) eqn:Hr; cbn [fst snd].
  - rewrite notify_receivers_run. cbn [fst snd].
    rewrite deliver_all_dbb, deliver_all_trace.
    cbn [w_dbb w_trace m_db_adapter_ptr m_attached_container_receivers].
    split; [done|]. split; [done|]. split; [by rewrite <- app_assoc|].
    intros c. rewrite deliver_all_objects by apply receivers_in_order_NoDup.
    by rewrite (bool_decide_ext _ _ (receivers_in_order_elem c _)).
  - done.
Qed.

(** C10: [close] marks the broker closed before it asks the adapter, so
    [is_open] is false after every [close], also when the adapter's
    [close] reports failure; [close] returns the adapter's result.  A
    second [close] returns as well (with the adapter's second result)
    and [is_open] stays false. *)
Theorem close_marks_closed w :
  let r := adapter_close (m_db_adapter_ptr (w_dbb w)) in
  let w' := after bridge.close w in
  let r2 := adapter_close r.2 in
  (bridge.close w).1 = Returned r.1
  ∧ m_db_adapter_ptr (w_dbb w') = r.2
  ∧ w_trace w' = w_trace w ++ [ev_adapter call_close]
  ∧ bridge.is_open w' = (Returned false, w')
  ∧ (bridge.close w').1 = Returned r2.1
  ∧ bridge.is_open (after bridge.close w') = (Returned false, after bridge.close w').
Proof. intros r w' r2. subst w'. by run_methods. Qed.

Lemma attach_container_receiver_run (receiver : receiver_ptr) w :
  bridge.attach_container_receiver receiver w
  = (if bool_decide (receiver ∈ m_attached_container_receivers (w_dbb w))
     then Thrown "failed, container already attached" else Returned tt,
     {| w_dbb := bridge.with_receivers
                   ({[receiver]} ∪ m_attached_container_receivers (w_dbb w)) (w_dbb w);
        w_objects := w_objects w;
        w_trace := w_trace w |}).
Proof. run_methods. by destruct (bool_decide _). Qed.

Lemma detach_container_receiver_run (receiver : receiver_ptr) w :
  bridge.detach_container_receiver receiver w
  = (if bool_decide (receiver ∈ m_attached_container_receivers (w_dbb w))
     then Returned tt else Thrown "failed, container has never been attached",
     {| w_dbb := bridge.with_receivers
                   (m_attached_container_receivers (w_dbb w) ∖ {[receiver]}) (w_dbb w);
        w_objects := w_objects w;
        w_trace := w_trace w |}).
Proof. run_methods. by destruct (bool_decide _). Qed.

(** C7: attach and detach are paired.  Attaching a receiver that is
    already attached throws and leaves the attached set as it was; a
    receiver that is not attached is added, and nothing else changes.
    Detaching an attached receiver removes exactly it; detaching one
    that is not attached throws and leaves the set as it was.  A
    successful attach followed by the detach of the same receiver gives
    back the set, so its size is unchanged. *)
Theorem attach_detach_paired (receiver : receiver_ptr) w :
  let s := m_attached_container_receivers (w_dbb w) in
  let wa := after (bridge.attach_container_receiver receiver) w in
  let wd := after (bridge.detach_container_receiver receiver) w in
  (if bool_decide (receiver ∈ s)
   then (bridge.attach_container_receiver receiver w).1
          = Thrown "failed, container already attached"
        ∧ m_attached_container_receivers (w_dbb wa) = s
        ∧ (bridge.detach_container_receiver receiver w).1 = Returned tt
        ∧ m_attached_container_receivers (w_dbb wd) = s ∖ {[receiver]}
        ∧ S (size (m_attached_container_receivers (w_dbb wd))) = size s
   else (bridge.attach_container_receiver receiver w).1 = Returned tt
        ∧ m_attached_container_receivers (w_dbb wa) = {[receiver]} ∪ s
        ∧ size (m_attached_container_receivers (w_dbb wa)) = S (size s)
        ∧ (bridge.detach_container_receiver receiver w).1
          = Thrown "failed, container has never been attached"
        ∧ m_attached_container_receivers (w_dbb wd) = s
        ∧ (bridge.detach_container_receiver receiver wa).1 = Returned tt
        ∧ m_attached_container_receivers
            (w_dbb (after (bridge.detach_container_receiver receiver) wa)) = s)
  ∧ (∀ x, x ∈ m_attached_container_receivers (w_dbb wa) ↔ x = receiver ∨ x ∈ s)
  ∧ (∀ x, x ∈ m_attached_container_receivers (w_dbb wd) ↔ x ∈ s ∧ x ≠ receiver)
  ∧ w_objects wa = w_objects w ∧ w_objects wd = w_objects w
  ∧ w_trace wa = w_trace w ∧ w_trace wd = w_trace w
  ∧ m_db_adapter_ptr (w_dbb wa) = m_db_adapter_ptr (w_dbb w)
  ∧ m_db_adapter_ptr (w_dbb wd) = m_db_adapter_ptr (w_dbb w).
Proof.
  intros s wa wd.
  assert (Hwa : m_attached_container_receivers (w_dbb wa) = {[receiver]} ∪ s)
    by (subst wa; unfold after; rewrite attach_container_receiver_run; done).
  assert (Hwd : m_attached_container_receivers (w_dbb wd) = s ∖ {[receiver]})
    by (subst wd; unfold after; rewrite detach_container_receiver_run; done).
  split; [|split; [|split]].
  - rewrite Hwa, Hwd, !attach_container_receiver_run, !detach_container_receiver_run.
    cbn [fst snd]. unfold after.
    rewrite detach_container_receiver_run. cbn [fst snd w_dbb]. fold s. rewrite Hwa.
    destruct (decide (receiver ∈ s)) as [Hin|Hin].
    + rewrite (bool_decide_eq_true_2 (receiver ∈ s)) by done.
      repeat split; [set_solver | symmetry; by apply size_remove].
    + rewrite (bool_decide_eq_false_2 (receiver ∈ s)) by done.
      assert (Hin' : receiver ∈ {[receiver]} ∪ s) by set_solver.
      rewrite (bool_decide_eq_true_2 _ Hin').
      repeat split; [by apply size_add | set_solver | cbn; set_solver].
  - intros x. rewrite Hwa. set_solver.
  - intros x. rewrite Hwd. set_solver.
  - subst wa wd. unfold after.
    by rewrite attach_container_receiver_run, detach_container_receiver_run.
Qed.

End broker_commit_close_attach.

(** ** The accessor *)

Ltac run_accessor :=
  unfold accessor.set, accessor.get, accessor.size, accessor.size_no_cache,
    accessor.clear, accessor.erase_validate, accessor.erase, accessor.index,
    accessor.invalidate_cache, epee.run, epee.run_exclusively,
    value_type_helper_selector.get, value_type_helper_selector.set,
    pod_object_value_helper.get, pod_object_value_helper.set,
    serializable_object_value_helper.get, serializable_object_value_helper.set;
  run_methods.

Lemma trace_grows (t : list event) (e : event) : t ++ [e] ≠ t.
Proof.
  intros Ht. apply (f_equal length) in Ht.
  rewrite length_app in Ht. cbn in Ht. lia.
Qed.

Section accessor_cache.
Context {A : Type} `{!i_db_adapter A}.
Context {key_t value_t : Type} `{!table_key key_t}.
Implicit Types (w : world A) (self : key_value_accessor_base).

(** C2: whatever the accessor, the key, the value, the world (and with
    it the adapter and what it answers) and the calling thread's mode,
    [set], [erase] and [clear] return, and the accessor they leave has
    [m_cached_size_is_valid = false]; nothing else of the accessor
    changes. *)
Theorem mutators_invalidate_size_cache
    (value_type_serializable : bool) (key : key_t) (value : value_t) self w :
  let invalid := accessor.with_cached_size_is_valid false self in
  m_cached_size_is_valid invalid = false
  ∧ (accessor.set value_type_serializable key value self w).1 = Returned invalid
  ∧ (accessor.erase key self w).1 = Returned invalid
  ∧ (accessor.clear self w).1 = Returned (1, invalid).
Proof. intros invalid. run_accessor. by destruct value_type_serializable. Qed.

(** C4: [size] answers from the cache, and makes no adapter call,
    exactly when the calling thread is in exclusive mode and the cache
    is valid.  Otherwise it makes the one call [get_table_size], returns
    what the adapter answered, and stores that answer as the valid
    cached size when, and only when, the thread is in exclusive mode:
    [m_cached_size] becomes the answer, [m_cached_size_is_valid] becomes
    true and the rest of the accessor is as it was.
    [size_no_cache] always makes the one call [get_table_size] and
    returns its answer; the cache fields play no part in it. *)
Theorem size_uses_cache_iff_exclusive_and_valid (thr : thread_id) self w :
  let exclusive_mode :=
    epee.is_exclusive_mode_for_this_thread thr (m_exclusive_runner self) in
  let r := adapter_get_table_size (m_tid self) (m_db_adapter_ptr (w_dbb w)) in
  let queried :=
    {| w_dbb := bridge.with_adapter r.2 (w_dbb w);
       w_objects := w_objects w;
       w_trace := w_trace w ++ [ev_adapter (call_get_table_size (m_tid self))] |} in
  let refreshed :=
    {| m_tid := m_tid self;
       m_exclusive_runner := m_exclusive_runner self;
       m_cached_size := r.1;
       m_cached_size_is_valid := true |} in
  (if exclusive_mode && m_cached_size_is_valid self
   then accessor.size thr self w = (Returned (m_cached_size self, self), w)
   else accessor.size thr self w
        = (Returned (r.1, if exclusive_mode then refreshed else self), queried))
  ∧ (w_trace (after (accessor.size thr self) w) = w_trace w
     ↔ exclusive_mode = true ∧ m_cached_size_is_valid self = true)
  ∧ accessor.size_no_cache self w = (Returned r.1, queried)
  ∧ (∀ n v, accessor.size_no_cache
              {| m_tid := m_tid self;
                 m_exclusive_runner := m_exclusive_runner self;
                 m_cached_size := n;
                 m_cached_size_is_valid := v |} w
            = accessor.size_no_cache self w).
Proof.
  intros exclusive_mode r queried refreshed. subst queried refreshed. run_accessor.
  fold exclusive_mode. fold r.
  destruct exclusive_mode, (m_cached_size_is_valid self); cbn [andb fst snd w_trace].
  all: split; [done|]; split; [|done].
  all: split; [|by intros [? ?]].
  all: try done.
  all: by intros ?%trace_grows.
Qed.

End accessor_cache.

Section accessor_erase_clear.
Context {A : Type} `{!i_db_adapter A}.
Context {key_t value_t : Type} `{!table_key key_t}.
Implicit Types (w : world A) (self : key_value_accessor_base).

(** [erase_validate] reads through the value helper, whose [get]
    returns [nullptr] in every case: the entry is erased through the
    adapter and the result is false, for every key. *)
Lemma erase_validate_run (value_type_serializable : bool) (k : key_t) self w :
  let r := adapter_erase (m_tid self) (tkey_to_pointer k) (m_db_adapter_ptr (w_dbb w)) in
  accessor.erase_validate (value_t := value_t) value_type_serializable k self w
  = (Returned (false, accessor.with_cached_size_is_valid false self),
     {| w_dbb := bridge.with_adapter r.2 (w_dbb w);
        w_objects := w_objects w;
        w_trace := w_trace w
                   ++ [ev_adapter (call_erase (m_tid self) (tkey_to_pointer k))] |}).
Proof. intros r. run_accessor. by destruct value_type_serializable. Qed.

(** C8, as the code has it: [clear] calls the adapter's [clear_table]
    for its table, invalidates the size cache and returns 1 (the
    [true] it returns as a [size_t]) whatever [clear_table] reported.
    The adapter's result is what the broker's own [clear] returns. *)
Theorem clear_returns_true_whatever_adapter_reports self w :
  let r := adapter_clear_table (m_tid self) (m_db_adapter_ptr (w_dbb w)) in
  let cleared :=
    {| w_dbb := bridge.with_adapter r.2 (w_dbb w);
       w_objects := w_objects w;
       w_trace := w_trace w ++ [ev_adapter (call_clear_table (m_tid self))] |} in
  accessor.clear self w
  = (Returned (1, accessor.with_cached_size_is_valid false self), cleared)
  ∧ bridge.clear (m_tid self) w = (Returned r.1, cleared).
Proof. intros r cleared. by run_accessor. Qed.

End accessor_erase_clear.

(** C5, at a key that is present: the table "accounts" holds "alice",
    [erase_validate "alice"] removes the entry (the table goes from one
    entry to none) and returns false, with either value helper. *)
Theorem erase_validate_present_key_returns_false :
  let w := two_accessors in
  let k := "alice"%string in
  let w' value_type_serializable :=
    after (accessor.erase_validate (value_t := string)
             value_type_serializable k accessor.fresh) w in
  mem_adapter.present 0 k (m_db_adapter_ptr (w_dbb w)) = true
  ∧ (mem_adapter.get_table_size 0 (m_db_adapter_ptr (w_dbb w))).1 = 1
  ∧ ∀ value_type_serializable,
      (accessor.erase_validate (value_t := string)
         value_type_serializable k accessor.fresh w).1
      = Returned (false, accessor.fresh)
      ∧ mem_adapter.present 0 k
          (m_db_adapter_ptr (w_dbb (w' value_type_serializable))) = false
      ∧ (mem_adapter.get_table_size 0
           (m_db_adapter_ptr (w_dbb (w' value_type_serializable)))).1 = 0.
Proof.
  intros w k w'. split; [by vm_compute|]. split; [by vm_compute|].
  intros value_type_serializable. subst w'. unfold after. cbn beta.
  rewrite erase_validate_run. cbn [fst snd]. split; [done|].
  by vm_compute.
Qed.

(** The claim about absent keys does hold: on an empty table
    [erase_validate] returns false and the table stays empty. *)
Example erase_validate_missing_key :
  let w := after (bridge.clear 0) two_accessors in
  (mem_adapter.get_table_size 0 (m_db_adapter_ptr (w_dbb w))).1 = 0
  ∧ (accessor.erase_validate (value_t := string) false "missing"%string
       accessor.fresh w).1 = Returned (false, accessor.fresh)
  ∧ (mem_adapter.get_table_size 0
       (m_db_adapter_ptr
          (w_dbb (after (accessor.erase_validate (value_t := string) false
                           "missing"%string accessor.fresh) w)))).1 = 0.
Proof. by vm_compute. Qed.

(** C8, refuted as stated: the accessor is bound to table 5, which the
    adapter does not have, so [clear_table] fails (the broker's [clear]
    returns false); the accessor's [clear] returns 1. *)
Lemma clear_hides_clear_table_failure :
  let self := accessor.with_tid 5 accessor.fresh in
  (adapter_clear_table (m_tid self) (m_db_adapter_ptr (w_dbb two_accessors))).1 = false
  ∧ (bridge.clear (m_tid self) two_accessors).1 = Returned false
  ∧ (accessor.clear self two_accessors).1 = Returned (1, self).
Proof. by vm_compute. Qed.

(** ** Notifications and the size cache *)

Section notifications_and_cache.
Context {A : Type} `{!i_db_adapter A}.
Implicit Types (w : world A) (self : key_value_accessor_base) (c : receiver_ptr).

Lemma abort_db_transaction_objects (thr : thread_id) w c :
  w_objects (after (bridge.abort_db_transaction thr) w) !! c
  = if bool_decide (c ∈ m_attached_container_receivers (w_dbb w))
    then on_write_transaction_abort thr <$> w_objects w !! c
    else w_objects w !! c.
Proof.
  run_methods. rewrite notify_receivers_run. cbn [fst snd].
  rewrite deliver_all_objects by apply receivers_in_order_NoDup.
  by rewrite (bool_decide_ext _ _ (receivers_in_order_elem c _)).
Qed.

Lemma commit_db_transaction_objects (thr : thread_id) w c :
  w_objects (after (bridge.commit_db_transaction thr) w) !! c
  = if (adapter_commit_transaction (m_db_adapter_ptr (w_dbb w))).1
       && bool_decide (c ∈ m_attached_container_receivers (w_dbb w))
    then on_write_transaction_commit thr <$> w_objects w !! c
    else w_objects w !! c.
Proof.
  run_methods. destruct (adapter_commit_transaction _).1; cbn [andb fst snd]; [|done].
  rewrite notify_receivers_run. cbn [fst snd].
  rewrite deliver_all_objects by apply receivers_in_order_NoDup.
  by rewrite (bool_decide_ext _ _ (receivers_in_order_elem c _)).
Qed.

Lemma cleared_not_exclusive (thr : thread_id) (h : epee.exclusive_access_helper) :
  epee.is_exclusive_mode_for_this_thread thr
    (epee.clear_exclusive_mode_for_this_thread thr h) = false.
Proof. apply bool_decide_eq_false_2. cbn. set_solver. Qed.

Lemma cleared_other_thread (thr thr' : thread_id) (h : epee.exclusive_access_helper) :
  thr' ≠ thr →
  epee.is_exclusive_mode_for_this_thread thr'
    (epee.clear_exclusive_mode_for_this_thread thr h)
  = epee.is_exclusive_mode_for_this_thread thr' h.
Proof. intros Hne. apply bool_decide_ext. cbn. set_solver. Qed.

Lemma size_outside_exclusive_mode (thr : thread_id) self w :
  epee.is_exclusive_mode_for_this_thread thr (m_exclusive_runner self) = false →
  emitted (accessor.size thr self) w [ev_adapter (call_get_table_size (m_tid self))].
Proof. intros Hx. run_accessor. by rewrite Hx. Qed.

(** C1, as the code has it: an abort notification, and a commit
    notification after a commit that succeeded, run the handler of every
    attached accessor.  Both handlers clear the exclusive marker of the
    calling thread and of no other thread, so the thread's next [size]
    asks the adapter; the commit handler leaves the cached size and its
    validity flag as they were. *)
Theorem notifications_clear_exclusive_marker (thr : thread_id) c self w :
  c ∈ m_attached_container_receivers (w_dbb w) →
  w_objects w !! c = Some self →
  let aborted := on_write_transaction_abort thr self in
  let committed := on_write_transaction_commit thr self in
  let leaves_exclusive_mode self' :=
    epee.is_exclusive_mode_for_this_thread thr (m_exclusive_runner self') = false
    ∧ (∀ thr', thr' ≠ thr →
         epee.is_exclusive_mode_for_this_thread thr' (m_exclusive_runner self')
         = epee.is_exclusive_mode_for_this_thread thr' (m_exclusive_runner self))
    ∧ (∀ w2 : world A,
         emitted (accessor.size thr self') w2
           [ev_adapter (call_get_table_size (m_tid self'))]) in
  w_objects (after (bridge.abort_db_transaction thr) w) !! c = Some aborted
  ∧ leaves_exclusive_mode aborted
  ∧ w_objects (after (bridge.commit_db_transaction thr) w) !! c
    = Some (if (adapter_commit_transaction (m_db_adapter_ptr (w_dbb w))).1
            then committed else self)
  ∧ leaves_exclusive_mode committed
  ∧ m_cached_size committed = m_cached_size self
  ∧ m_cached_size_is_valid committed = m_cached_size_is_valid self.
Proof.
  intros Hc Hself aborted committed leaves.
  assert (Hleaves : ∀ self', m_exclusive_runner self'
            = epee.clear_exclusive_mode_for_this_thread thr (m_exclusive_runner self) →
            leaves self').
  { intros self' Hr. subst leaves. cbn beta. split; [|split].
    - rewrite Hr. apply cleared_not_exclusive.
    - intros thr' Hne. rewrite Hr. by apply cleared_other_thread.
    - intros w2. apply size_outside_exclusive_mode.
      rewrite Hr. apply cleared_not_exclusive. }
  split; [|split; [|split; [|split]]].
  - rewrite abort_db_transaction_objects, bool_decide_eq_true_2 by done.
    by rewrite Hself.
  - by apply Hleaves.
  - rewrite commit_db_transaction_objects, (bool_decide_eq_true_2 _ Hc), Hself.
    by destruct (adapter_commit_transaction _).1.
  - by apply Hleaves.
  - done.
Qed.

End notifications_and_cache.

(** The same on the reference adapter: thread 7 aborts while the
    accessor at address 1 is attached and in exclusive mode. *)
Lemma notifications_clear_exclusive_marker_witness :
  1 ∈ m_attached_container_receivers (w_dbb size_cached_in_transaction)
  ∧ w_objects size_cached_in_transaction !! 1 = Some caching_accessor
  ∧ w_objects (after (bridge.abort_db_transaction 7%nat) size_cached_in_transaction) !! 1
    = Some (on_write_transaction_abort 7%nat caching_accessor)
  ∧ epee.is_exclusive_mode_for_this_thread 7%nat
      (m_exclusive_runner (on_write_transaction_abort 7%nat caching_accessor)) = false.
Proof.
  assert (H1 : 1 ∈ m_attached_container_receivers (w_dbb size_cached_in_transaction))
    by (apply (bool_decide_unpack _); vm_compute; exact I).
  assert (H2 : w_objects size_cached_in_transaction !! 1 = Some caching_accessor)
    by (vm_compute; reflexivity).
  split; [exact H1|]. split; [exact H2|].
  pose proof (notifications_clear_exclusive_marker 7%nat 1 caching_accessor
                size_cached_in_transaction H1 H2) as (Ha & (Hx & _) & _).
  split; [exact Ha | exact Hx].
Defined.

(** C1, refuted as stated: the accessor at address 1 has a valid cached
    size when the notification arrives, and its cache is still valid
    after the abort notification, and after the commit notification. *)
Lemma notifications_leave_cache_valid :
  let w := size_cached_in_transaction in
  bool_decide (1 ∈ m_attached_container_receivers (w_dbb w)) = true
  ∧ m_cached_size_is_valid <$> w_objects w !! 1 = Some true
  ∧ m_cached_size_is_valid
      <$> w_objects (after (bridge.abort_db_transaction 7%nat) w) !! 1 = Some true
  ∧ (bridge.commit_db_transaction 7%nat w).1 = Returned tt
  ∧ m_cached_size_is_valid
      <$> w_objects (after (bridge.commit_db_transaction 7%nat) w) !! 1 = Some true.
Proof. by vm_compute. Qed.

(** What the valid cache means after an abort: the aborted write of
    "bob" is rolled back, the table holds one entry again, and in the
    next transaction of the same thread [size] still answers 2. *)
Example aborted_size_read_back :
  let w := after (bridge.abort_db_transaction 7%nat;;
                  bridge.begin_db_transaction 7%nat tx_read_write)
             size_cached_in_transaction in
  (bridge.size 0 w).1 = Returned 1
  ∧ (call_method 1 (accessor.size 7%nat) w).1 = Returned 2.
Proof. by vm_compute. Qed.

(** ** Fixed-layout values through the broker *)

Lemma mem_adapter_returns_last_stored : returns_last_stored mem_adapter.mem_db.
Proof.
  intros a tid key value. cbn. unfold mem_adapter.set, mem_adapter.get.
  destruct (mem_adapter.md_tables a !! tid) as [t|] eqn:Ht; [|done].
  intros _. cbn. by rewrite lookup_insert_eq; cbn; rewrite lookup_insert_eq.
Qed.

Section pod_objects.
Context {A : Type} `{!i_db_adapter A}.
Context {K T : Type} `{!table_key K} `{!pod T}.
Implicit Types (w : world A).

Lemma get_pod_object_run (tid : table_id) (tkey : K) (obj : T) w :
  let r := adapter_get tid (tkey_to_pointer tkey) (m_db_adapter_ptr (w_dbb w)) in
  (bridge.get_pod_object tid tkey obj w).1
  = Returned (if r.1.1 && Nat.eqb pod_sizeof (String.length r.1.2)
              then (true, pod_read r.1.2) else (false, obj)).
Proof.
  intros r. run_methods. fold r. destruct r as [[found buffer] a]. cbn.
  destruct found; cbn; [|done]. by destruct (Nat.eqb _ _).
Qed.

(** C9: with a POD type that obeys its laws and an adapter that returns
    the bytes last stored, a [set_pod_object] that succeeded is read
    back by [get_pod_object]: the stored buffer has the size of the
    type, and the call returns true with the value that was set.  And
    whenever the buffer the adapter hands back has another length than
    the size of the type, [get_pod_object] returns false and leaves
    [obj] as it was. *)
Theorem pod_object_round_trip (wf : T → Prop) :
  (pod_laws wf → returns_last_stored A →
   ∀ (tid : table_id) (tkey : K) (v obj : T) w,
     wf v →
     (bridge.set_pod_object tid tkey v w).1 = Returned true →
     String.length (pod_bytes v) = pod_sizeof
     ∧ (bridge.get_pod_object tid tkey obj
          (after (bridge.set_pod_object tid tkey v) w)).1 = Returned (true, v))
  ∧ (∀ (tid : table_id) (tkey : K) (obj : T) w,
       String.length
         (adapter_get tid (tkey_to_pointer tkey) (m_db_adapter_ptr (w_dbb w))).1.2
       ≠ pod_sizeof →
       (bridge.get_pod_object tid tkey obj w).1 = Returned (false, obj)).
Proof.
  split.
  - intros [Hlen Hread] Hstored tid tkey v obj w Hwf Hset.
    split; [apply Hlen|].
    rewrite get_pod_object_run. revert Hset. run_methods.
    destruct (adapter_set _ _ _ _).1 eqn:Hr; cbn; [intros _|done].
    rewrite (Hstored _ _ _ _ Hr). cbn.
    by rewrite Hlen, Nat.eqb_refl, Hread.
  - intros tid tkey obj w Hne. rewrite get_pod_object_run.
    destruct (_.1.1); [|done]. cbn [andb].
    destruct (Nat.eqb_spec pod_sizeof
      (String.length (adapter_get tid (tkey_to_pointer tkey)
                        (m_db_adapter_ptr (w_dbb w))).1.2)); [|done].
    by destruct Hne.
Qed.

End pod_objects.

(** The same on the reference adapter with [uint64_t] values: 515 is
    stored under "bob" and read back; "alice" holds three bytes, which
    is not the size of a [uint64_t]. *)
Lemma pod_object_round_trip_witness :
  uint64_wf 515
  ∧ (bridge.set_pod_object (pod0 := uint64_pod) 0 "bob"%string 515 two_accessors).1
    = Returned true
  ∧ (bridge.get_pod_object (pod0 := uint64_pod) 0 "bob"%string 0
       (after (bridge.set_pod_object (pod0 := uint64_pod) 0 "bob"%string 515)
          two_accessors)).1 = Returned (true, 515)
  ∧ (bridge.get_pod_object (pod0 := uint64_pod) 0 "alice"%string 0 two_accessors).1
    = Returned (false, 0).
Proof.
  assert (Hwf : uint64_wf 515) by (vm_compute; reflexivity).
  assert (Hset : (bridge.set_pod_object (pod0 := uint64_pod) 0 "bob"%string 515
                    two_accessors).1 = Returned true) by (vm_compute; reflexivity).
  destruct (pod_object_round_trip (A := mem_adapter.mem_db) (K := string)
              (pod0 := uint64_pod) uint64_wf) as [Hround Hsize].
  split; [exact Hwf|]. split; [exact Hset|]. split.
  - exact (proj2 (Hround uint64_pod_laws mem_adapter_returns_last_stored
                    0 "bob"%string 515 0 two_accessors Hwf Hset)).
  - apply Hsize. vm_compute. discriminate.
Defined.

(** ** The broker on the reference adapter *)

(** A second [begin] is rejected by the adapter; both accessors are
    notified all the same. *)
Example rejected_begin_still_notifies :
  let w := after (bridge.begin_db_transaction 7%nat tx_read_write) two_accessors in
  (bridge.begin_db_transaction 8%nat tx_read_write w).1 = Returned false
  ∧ w_trace (after (bridge.begin_db_transaction 8%nat tx_read_write) w)
    = w_trace w ++ [ev_adapter (call_begin_transaction false);
                    ev_notify 1 write_transaction_begin;
                    ev_notify 2 write_transaction_begin].
Proof. by vm_compute. Qed.

(** [close] twice: the adapter answers true, then false; the broker is
    closed after each. *)
Example close_twice :
  let w := after (bridge.open "db") (new_world mem_adapter.empty_db) in
  (bridge.is_open w).1 = Returned true
  ∧ (bridge.close w).1 = Returned true
  ∧ (bridge.is_open (after bridge.close w)).1 = Returned false
  ∧ (bridge.close (after bridge.close w)).1 = Returned false
  ∧ (bridge.is_open (after bridge.close (after bridge.close w))).1 = Returned false.
Proof. by vm_compute. Qed.

(** A commit without an open transaction fails in the adapter: the
    broker throws and the trace shows no notification. *)
Example failed_commit_throws :
  (bridge.commit_db_transaction 7%nat two_accessors).1
  = Thrown "commit_transaction failed"
  ∧ w_trace (after (bridge.commit_db_transaction 7%nat) two_accessors)
    = [ev_adapter call_commit_transaction].
Proof. by vm_compute. Qed.

(** * Further properties *)

(** ** The transaction methods as a whole *)

Section transactions.
Context {A : Type} `{!i_db_adapter A}.
Implicit Types (w : world A) (self : key_value_accessor_base) (c : receiver_ptr).

Lemma after_bind {X Y} (m : M A X) (k : X → M A Y) w x :
  (m w).1 = Returned x → (m ≫= k) w = k x (after m w).
Proof.
  unfold after, mbind, M_bind. destruct (m w) as [[x'|what] w']; cbn; [|done].
  by intros [= ->].
Qed.

Lemma deliver_all_dom thr n (l : list receiver_ptr) w :
  dom (w_objects (foldl (bridge.deliver thr n) w l)) = dom (w_objects w).
Proof.
  revert w. induction l as [|c l IH]; intros w; cbn [foldl]; [done|].
  rewrite IH. cbn [bridge.deliver w_objects]. apply dom_alter_L.
Qed.

Lemma handler_m_tid thr n self : m_tid (handler thr n self) = m_tid self.
Proof. by destruct n. Qed.

Lemma begin_db_transaction_run (thr : thread_id) (read_only_access : bool) w :
  let r := adapter_begin_transaction read_only_access (m_db_adapter_ptr (w_dbb w)) in
  bridge.begin_db_transaction thr read_only_access w
  = (Returned r.1,
     foldl (bridge.deliver thr write_transaction_begin)
       {| w_dbb := bridge.with_adapter r.2 (w_dbb w);
          w_objects := w_objects w;
          w_trace := w_trace w ++ [ev_adapter (call_begin_transaction read_only_access)] |}
       (bridge.receivers_in_order (m_attached_container_receivers (w_dbb w)))).
Proof. intros r. run_methods. by rewrite notify_receivers_run. Qed.

Lemma abort_db_transaction_run (thr : thread_id) w :
  bridge.abort_db_transaction thr w
  = (Returned tt,
     foldl (bridge.deliver thr write_transaction_abort)
       {| w_dbb := bridge.with_adapter
                     (adapter_abort_transaction (m_db_adapter_ptr (w_dbb w))) (w_dbb w);
          w_objects := w_objects w;
          w_trace := w_trace w ++ [ev_adapter call_abort_transaction] |}
       (bridge.receivers_in_order (m_attached_container_receivers (w_dbb w)))).
Proof. run_methods. by rewrite notify_receivers_run. Qed.

Lemma commit_db_transaction_run (thr : thread_id) w :
  let r := adapter_commit_transaction (m_db_adapter_ptr (w_dbb w)) in
  let called :=
    {| w_dbb := bridge.with_adapter r.2 (w_dbb w);
       w_objects := w_objects w;
       w_trace := w_trace w ++ [ev_adapter call_commit_transaction] |} in
  bridge.commit_db_transaction thr w
  = if r.1
    then (Returned tt,
          foldl (bridge.deliver thr write_transaction_commit) called
            (bridge.receivers_in_order (m_attached_container_receivers (w_dbb w))))
    else (Thrown "commit_transaction failed", called).
Proof.
  intros r called. subst called. run_methods. fold r.
  destruct r.1; cbn [fst snd]; [|done]. by rewrite notify_receivers_run.
Qed.

Lemma begin_db_transaction_objects (thr : thread_id) (read_only_access : bool) w c :
  w_objects (after (bridge.begin_db_transaction thr read_only_access) w) !! c
  = if bool_decide (c ∈ m_attached_container_receivers (w_dbb w))
    then on_write_transaction_begin thr <$> w_objects w !! c
    else w_objects w !! c.
Proof.
  unfold after. rewrite begin_db_transaction_run. cbn [snd].
  rewrite deliver_all_objects by apply receivers_in_order_NoDup.
  by rewrite (bool_decide_ext _ _ (receivers_in_order_elem c _)).
Qed.

Lemma begin_db_transaction_receivers (thr : thread_id) (read_only_access : bool) w :
  m_attached_container_receivers
    (w_dbb (after (bridge.begin_db_transaction thr read_only_access) w))
  = m_attached_container_receivers (w_dbb w).
Proof. unfold after. rewrite begin_db_transaction_run. cbn [snd]. by rewrite deliver_all_dbb. Qed.

(** X1: [abort_db_transaction] never throws.  It calls the adapter's
    [abort_transaction] and then delivers [on_write_transaction_abort]
    to every attached receiver, once each and in ascending order of
    address; the objects that are not attached are left alone. *)
Theorem abort_db_transaction_always_notifies (thr : thread_id) w :
  let s := m_attached_container_receivers (w_dbb w) in
  let w' := after (bridge.abort_db_transaction thr) w in
  (bridge.abort_db_transaction thr w).1 = Returned tt
  ∧ m_db_adapter_ptr (w_dbb w') = adapter_abort_transaction (m_db_adapter_ptr (w_dbb w))
  ∧ w_trace w'
    = w_trace w ++ ev_adapter call_abort_transaction
        :: map (λ c, ev_notify c write_transaction_abort) (bridge.receivers_in_order s)
  ∧ Sorted N.le (bridge.receivers_in_order s)
  ∧ NoDup (bridge.receivers_in_order s)
  ∧ (∀ c, c ∈ bridge.receivers_in_order s ↔ c ∈ s)
  ∧ (∀ c, w_objects w' !! c
          = if bool_decide (c ∈ s)
            then on_write_transaction_abort thr <$> w_objects w !! c
            else w_objects w !! c).
Proof.
  intros s w'. subst w'. unfold after. rewrite abort_db_transaction_run. cbn [fst snd].
  rewrite deliver_all_dbb, deliver_all_trace. cbn [w_dbb w_trace m_db_adapter_ptr
    bridge.with_adapter].
  split; [done|]. split; [done|]. split; [by rewrite <- app_assoc|].
  split; [apply receivers_in_order_sorted|].
  split; [apply receivers_in_order_NoDup|].
  split; [intros c; apply receivers_in_order_elem|].
  intros c. rewrite deliver_all_objects by apply receivers_in_order_NoDup.
  by rewrite (bool_decide_ext _ _ (receivers_in_order_elem c _)).
Qed.

(** X2: the three transaction methods create and destroy no object,
    leave the attached set and the opened flag as they are, and change
    the table id of no object. *)
Theorem transactions_keep_the_registry (thr : thread_id) (read_only_access : bool) w :
  let kept (w' : world A) :=
    dom (w_objects w') = dom (w_objects w)
    ∧ m_attached_container_receivers (w_dbb w') = m_attached_container_receivers (w_dbb w)
    ∧ m_db_opened (w_dbb w') = m_db_opened (w_dbb w)
    ∧ ∀ c, m_tid <$> w_objects w' !! c = m_tid <$> w_objects w !! c in
  kept (after (bridge.begin_db_transaction thr read_only_access) w)
  ∧ kept (after (bridge.commit_db_transaction thr) w)
  ∧ kept (after (bridge.abort_db_transaction thr) w).
Proof.
  intros kept.
  assert (Hloop : ∀ n w0,
    dom (w_objects w0) = dom (w_objects w) →
    m_attached_container_receivers (w_dbb w0) = m_attached_container_receivers (w_dbb w) →
    m_db_opened (w_dbb w0) = m_db_opened (w_dbb w) →
    w_objects w0 = w_objects w →
    kept (foldl (bridge.deliver thr n) w0
            (bridge.receivers_in_order (m_attached_container_receivers (w_dbb w))))).
  { intros n w0 Hd Hs Ho Hobj. subst kept. cbn beta.
    rewrite deliver_all_dom, deliver_all_dbb. split; [done|]. split; [done|].
    split; [done|]. intros c.
    rewrite deliver_all_objects by apply receivers_in_order_NoDup.
    rewrite Hobj. destruct (bool_decide _); [|done].
    destruct (w_objects w !! c) as [self|]; [|done]. cbn.
    by rewrite handler_m_tid. }
  unfold after. rewrite begin_db_transaction_run, abort_db_transaction_run,
    commit_db_transaction_run. cbn [snd].
  split; [by apply Hloop|]. split; [|by apply Hloop].
  destruct (adapter_commit_transaction _).1; cbn [snd]; [by apply Hloop|].
  subst kept. by cbn.
Qed.

End transactions.

(** ** Exclusive mode over a whole transaction *)

Lemma abort_after_begin (thr : thread_id) (self : key_value_accessor_base) :
  thr ∉ epee.m_exclusive_threads (m_exclusive_runner self) →
  on_write_transaction_abort thr (on_write_transaction_begin thr self) = self.
Proof.
  destruct self as [tid [threads] cached valid]. cbn. intros Hthr.
  unfold on_write_transaction_abort, on_write_transaction_begin,
    epee.clear_exclusive_mode_for_this_thread, epee.set_exclusive_mode_for_this_thread.
  cbn. do 2 f_equal. set_solver.
Qed.

Lemma commit_after_begin (thr : thread_id) (self : key_value_accessor_base) :
  thr ∉ epee.m_exclusive_threads (m_exclusive_runner self) →
  on_write_transaction_commit thr (on_write_transaction_begin thr self) = self.
Proof. apply abort_after_begin. Qed.

Lemma begun_is_exclusive (thr : thread_id) (self : key_value_accessor_base) :
  epee.is_exclusive_mode_for_this_thread thr
    (m_exclusive_runner (on_write_transaction_begin thr self)) = true.
Proof. apply bool_decide_eq_true_2. cbn. set_solver. Qed.

Section transaction_round_trips.
Context {A : Type} `{!i_db_adapter A}.
Implicit Types (w : world A) (self : key_value_accessor_base) (c : receiver_ptr).

(** X3: when no attached accessor was in exclusive mode for the calling
    thread, a begin followed by an abort gives back every object exactly
    as it was, and so does a begin followed by a commit that
    succeeds. *)
Theorem begin_then_end_restores_objects (thr : thread_id) (read_only_access : bool) w :
  map_Forall
    (λ c self, c ∈ m_attached_container_receivers (w_dbb w) →
               thr ∉ epee.m_exclusive_threads (m_exclusive_runner self))
    (w_objects w) →
  let begun := after (bridge.begin_db_transaction thr read_only_access) w in
  w_objects (after (bridge.abort_db_transaction thr) begun) = w_objects w
  ∧ ((adapter_commit_transaction (m_db_adapter_ptr (w_dbb begun))).1 = true →
     (bridge.commit_db_transaction thr begun).1 = Returned tt
     ∧ w_objects (after (bridge.commit_db_transaction thr) begun) = w_objects w).
Proof.
  intros Hfree begun.
  assert (Hback : ∀ c, (if bool_decide (c ∈ m_attached_container_receivers (w_dbb begun))
                        then on_write_transaction_abort thr <$> w_objects begun !! c
                        else w_objects begun !! c) = w_objects w !! c).
  { intros c. subst begun.
    rewrite begin_db_transaction_receivers, begin_db_transaction_objects.
    destruct (decide (c ∈ m_attached_container_receivers (w_dbb w))) as [Hc|Hc].
    - rewrite !bool_decide_eq_true_2 by done.
      destruct (w_objects w !! c) as [self|] eqn:Hself; [|done]. cbn.
      by rewrite (abort_after_begin thr self (Hfree c self Hself Hc)).
    - by rewrite !bool_decide_eq_false_2 by done. }
  split.
  - apply map_eq. intros c. by rewrite abort_db_transaction_objects, Hback.
  - intros Hok. split.
    + rewrite commit_db_transaction_run. by rewrite Hok.
    + apply map_eq. intros c. rewrite commit_db_transaction_objects, Hok.
      cbn [andb]. apply Hback.
Qed.

(** X4: when the adapter's commit fails, [commit_db_transaction] throws
    before any notification, so every attached accessor is still in
    exclusive mode for the thread that began the transaction. *)
Theorem failed_commit_leaves_exclusive_mode
    (thr : thread_id) (read_only_access : bool) w :
  let begun := after (bridge.begin_db_transaction thr read_only_access) w in
  (adapter_commit_transaction (m_db_adapter_ptr (w_dbb begun))).1 = false →
  (bridge.commit_db_transaction thr begun).1 = Thrown "commit_transaction failed"
  ∧ ∀ c self',
      c ∈ m_attached_container_receivers (w_dbb w) →
      w_objects (after (bridge.commit_db_transaction thr) begun) !! c = Some self' →
      epee.is_exclusive_mode_for_this_thread thr (m_exclusive_runner self') = true.
Proof.
  intros begun Hfail. split.
  - rewrite commit_db_transaction_run. by rewrite Hfail.
  - intros c self' Hc. rewrite commit_db_transaction_objects, Hfail. cbn [andb].
    subst begun. rewrite begin_db_transaction_objects, bool_decide_eq_true_2 by done.
    destruct (w_objects w !! c) as [self|]; [|done].
    intros [= <-]. apply begun_is_exclusive.
Qed.

(** X5: exclusive mode belongs to the thread that began the
    transaction.  On an accessor that another thread put in exclusive
    mode, [size] called by a thread that is not in exclusive mode asks
    the adapter, returns its answer and leaves the accessor, cache
    included, as it was. *)
Theorem exclusive_mode_is_per_thread (thr thr' : thread_id) self w :
  thr' ≠ thr →
  epee.is_exclusive_mode_for_this_thread thr' (m_exclusive_runner self) = false →
  let begun := on_write_transaction_begin thr self in
  let r := adapter_get_table_size (m_tid self) (m_db_adapter_ptr (w_dbb w)) in
  epee.is_exclusive_mode_for_this_thread thr' (m_exclusive_runner begun) = false
  ∧ accessor.size thr' begun w
    = (Returned (r.1, begun),
       {| w_dbb := bridge.with_adapter r.2 (w_dbb w);
          w_objects := w_objects w;
          w_trace := w_trace w ++ [ev_adapter (call_get_table_size (m_tid self))] |}).
Proof.
  intros Hne Hx begun r.
  assert (Hx' : epee.is_exclusive_mode_for_this_thread thr' (m_exclusive_runner begun)
                = false).
  { apply bool_decide_eq_false_2. apply bool_decide_eq_false_1 in Hx.
    cbn. set_solver. }
  split; [done|]. run_accessor. by rewrite Hx'.
Qed.

End transaction_round_trips.

(** X3 on the reference adapter: thread 7 and the two fresh accessors. *)
Lemma begin_then_end_restores_objects_witness :
  w_objects
    (after (bridge.abort_db_transaction 7%nat)
       (after (bridge.begin_db_transaction 7%nat tx_read_write) two_accessors))
  = w_objects two_accessors.
Proof.
  refine (proj1 (begin_then_end_restores_objects 7%nat tx_read_write two_accessors _)).
  apply (bool_decide_unpack _). vm_compute. exact I.
Defined.

(** X4 on the reference adapter: the database was never opened, so the
    begin and the commit both fail. *)
Lemma failed_commit_leaves_exclusive_mode_witness :
  (mem_adapter.commit_transaction
     (m_db_adapter_ptr
        (w_dbb (after (bridge.begin_db_transaction 7%nat tx_read_write)
                  unopened_world)))).1 = false
  ∧ (bridge.commit_db_transaction 7%nat
       (after (bridge.begin_db_transaction 7%nat tx_read_write) unopened_world)).1
    = Thrown "commit_transaction failed".
Proof.
  assert (Hfail : (adapter_commit_transaction
     (m_db_adapter_ptr
        (w_dbb (after (bridge.begin_db_transaction 7%nat tx_read_write)
                  unopened_world)))).1 = false) by (vm_compute; reflexivity).
  split; [exact Hfail|].
  exact (proj1 (failed_commit_leaves_exclusive_mode 7%nat tx_read_write
                  unopened_world Hfail)).
Defined.

(** X5 on the reference adapter: thread 7 began, thread 8 asks. *)
Lemma exclusive_mode_is_per_thread_witness :
  8%nat ≠ 7%nat
  ∧ epee.is_exclusive_mode_for_this_thread 8%nat
      (m_exclusive_runner accessor.fresh) = false
  ∧ (accessor.size 8%nat (on_write_transaction_begin 7%nat accessor.fresh)
       two_accessors).1
    = Returned (1, on_write_transaction_begin 7%nat accessor.fresh).
Proof.
  assert (Hne : 8%nat ≠ 7%nat) by lia.
  assert (Hx : epee.is_exclusive_mode_for_this_thread 8%nat
                 (m_exclusive_runner accessor.fresh) = false)
    by (vm_compute; reflexivity).
  split; [exact Hne|]. split; [exact Hx|].
  pose proof (exclusive_mode_is_per_thread 7%nat 8%nat accessor.fresh
                two_accessors Hne Hx) as [_ Hsize].
  rewrite Hsize. vm_compute. reflexivity.
Defined.

(** ** The accessor between mutations *)

Section accessor_compositions.
Context {A : Type} `{!i_db_adapter A}.
Context {key_t value_t : Type} `{!table_key key_t}.
Implicit Types (w : world A) (self : key_value_accessor_base).

(** X6: in exclusive mode a [size] leaves a valid cache behind, and the
    next [size] of the same thread returns the same number without any
    adapter call, in whatever world it runs. *)
Theorem size_twice_hits_cache (thr : thread_id) self w :
  epee.is_exclusive_mode_for_this_thread thr (m_exclusive_runner self) = true →
  ∃ n self1,
    (accessor.size thr self w).1 = Returned (n, self1)
    ∧ m_cached_size_is_valid self1 = true
    ∧ ∀ w2 : world A, accessor.size thr self1 w2 = (Returned (n, self1), w2).
Proof.
  intros Hx. run_accessor. rewrite Hx.
  destruct (m_cached_size_is_valid self) eqn:Hv; cbn [andb fst].
  - exists (m_cached_size self), self. split; [done|]. split; [done|].
    intros w2. by rewrite Hx, Hv.
  - eexists _, _. split; [done|]. split; [done|].
    intros w2. cbn. by rewrite Hx.
Qed.

(** X7: right after [set], [erase] or [clear], [size] asks the adapter
    and returns what it answers for the table as the mutation left it,
    whatever the calling thread's mode and whatever was cached. *)
Theorem size_after_mutation_asks_adapter
    (value_type_serializable : bool) (key : key_t) (value : value_t)
    (thr : thread_id) self w :
  let tid := m_tid self in
  let a := m_db_adapter_ptr (w_dbb w) in
  let after_set :=
    (self' ← accessor.set value_type_serializable key value self;
     accessor.size thr self') in
  let after_erase := (self' ← accessor.erase key self; accessor.size thr self') in
  let after_clear := (r ← accessor.clear self; accessor.size thr r.2) in
  emitted after_set w [ev_adapter (call_get_table_size tid)]
  ∧ (∃ self', (after_set w).1 = Returned ((adapter_get_table_size tid a).1, self'))
  ∧ emitted after_erase w
      [ev_adapter (call_erase tid (tkey_to_pointer key));
       ev_adapter (call_get_table_size tid)]
  ∧ (∃ self', (after_erase w).1
              = Returned ((adapter_get_table_size tid
                             (adapter_erase tid (tkey_to_pointer key) a).2).1, self'))
  ∧ emitted after_clear w
      [ev_adapter (call_clear_table tid); ev_adapter (call_get_table_size tid)]
  ∧ (∃ self', (after_clear w).1
              = Returned ((adapter_get_table_size tid (adapter_clear_table tid a).2).1,
                          self')).
Proof.
  intros tid a after_set after_erase after_clear.
  subst after_set after_erase after_clear.
  destruct value_type_serializable; run_accessor.
  all: cbn [m_exclusive_runner m_cached_size_is_valid m_tid
            accessor.with_cached_size_is_valid].
  all: rewrite !andb_false_r.
  all: destruct (epee.is_exclusive_mode_for_this_thread thr (m_exclusive_runner self)).
  all: cbn [fst snd w_trace w_dbb m_db_adapter_ptr bridge.with_adapter].
  all: rewrite <- ?app_assoc; repeat split; eauto.
Qed.

(** X8: the accessor's [set] and [explicit_set] make no adapter call and
    store nothing; [get] and [explicit_get] make none and return
    [nullptr], also right after a [set] of the same key; [operator[]]
    throws "Out of range" for every key. *)
Theorem accessor_reads_find_nothing
    (value_type_serializable : bool) (helper : object_value_helper_t)
    (key : key_t) (value : value_t) self w :
  let invalid := accessor.with_cached_size_is_valid false self in
  accessor.set value_type_serializable key value self w = (Returned invalid, w)
  ∧ accessor.get (value_t := value_t) value_type_serializable key self w
    = (Returned None, w)
  ∧ (self' ← accessor.set value_type_serializable key value self;
     accessor.get (value_t := value_t) value_type_serializable key self') w
    = (Returned None, w)
  ∧ accessor.index (value_t := value_t) value_type_serializable key self w
    = (Thrown "Out of range", w)
  ∧ explicit_set helper key value self w = (Returned invalid, w)
  ∧ explicit_get (explicit_value_t := value_t) helper key self w = (Returned None, w)
  ∧ (self' ← explicit_set helper key value self;
     explicit_get (explicit_value_t := value_t) helper key self') w
    = (Returned None, w).
Proof.
  intros invalid. unfold explicit_set, explicit_get. run_accessor.
  by destruct value_type_serializable, helper.
Qed.

(** X9: [init] stores the table id the adapter hands back and leaves
    the size cache alone: in exclusive mode with a valid cache, the
    [size] that follows an [init] returns the size cached before it,
    and the only adapter call is [open_table]. *)
Theorem init_keeps_the_size_cache (table_name : string) (thr : thread_id) self w :
  epee.is_exclusive_mode_for_this_thread thr (m_exclusive_runner self) = true →
  m_cached_size_is_valid self = true →
  let a := m_db_adapter_ptr (w_dbb w) in
  let r := adapter_open_table table_name (m_tid self) a in
  let bound := accessor.with_tid r.1.2 self in
  accessor.init table_name self w
  = (Returned (r.1.1, bound),
     {| w_dbb := bridge.with_adapter r.2 (w_dbb w);
        w_objects := w_objects w;
        w_trace := w_trace w ++ [ev_adapter (call_open_table table_name)] |})
  ∧ (p ← accessor.init table_name self; accessor.size thr p.2) w
    = (Returned (m_cached_size self, bound),
       {| w_dbb := bridge.with_adapter r.2 (w_dbb w);
          w_objects := w_objects w;
          w_trace := w_trace w ++ [ev_adapter (call_open_table table_name)] |}).
Proof.
  intros Hx Hv a r bound. subst bound. unfold accessor.init. run_accessor.
  cbn [m_exclusive_runner m_cached_size_is_valid accessor.with_tid].
  by rewrite Hx, Hv.
Qed.

(** X10: the constructor first initialises the object at its address
    (table id 0, no thread in exclusive mode, the size cache invalid,
    so that its first [size] asks the adapter) and then attaches it.
    At an address that is already attached it throws with the attached
    set as it was, and the fields at that address have been reset by
    then. *)
Theorem construct_attaches_fresh_object (this : receiver_ptr) w :
  let s := m_attached_container_receivers (w_dbb w) in
  let w' := after (accessor.construct this) w in
  w_objects w' = <[this := accessor.fresh]> (w_objects w)
  ∧ (if bool_decide (this ∈ s)
     then (accessor.construct this w).1 = Thrown "failed, container already attached"
          ∧ m_attached_container_receivers (w_dbb w') = s
     else (accessor.construct this w).1 = Returned tt
          ∧ m_attached_container_receivers (w_dbb w') = {[this]} ∪ s)
  ∧ w_trace w' = w_trace w
  ∧ m_db_adapter_ptr (w_dbb w') = m_db_adapter_ptr (w_dbb w)
  ∧ m_db_opened (w_dbb w') = m_db_opened (w_dbb w)
  ∧ m_tid accessor.fresh = 0
  ∧ m_cached_size accessor.fresh = 0
  ∧ m_cached_size_is_valid accessor.fresh = false
  ∧ (∀ thr, epee.is_exclusive_mode_for_this_thread thr
              (m_exclusive_runner accessor.fresh) = false)
  ∧ ∀ thr (w2 : world A),
      emitted (accessor.size thr accessor.fresh) w2
        [ev_adapter (call_get_table_size 0)].
Proof.
  intros s w'. subst w'.
  unfold after, accessor.construct, accessor.place, mbind, M_bind.
  rewrite attach_container_receiver_run.
  cbn [fst snd w_dbb w_objects w_trace m_db_adapter_ptr m_db_opened
       m_attached_container_receivers bridge.with_receivers]. fold s.
  split; [done|]. split.
  - destruct (decide (this ∈ s)) as [Hin|Hin].
    + rewrite bool_decide_eq_true_2 by done. split; [done | set_solver].
    + by rewrite bool_decide_eq_false_2 by done.
  - split; [done|]. split; [done|]. split; [done|]. split; [done|].
    split; [done|]. split; [done|]. split; [done|].
    intros thr w2. by run_accessor.
Qed.

End accessor_compositions.

(** X6 on the reference adapter: thread 7 in exclusive mode, nothing
    cached yet. *)
Lemma size_twice_hits_cache_witness :
  ∃ n self1,
    (accessor.size 7%nat (on_write_transaction_begin 7%nat accessor.fresh)
       two_accessors).1 = Returned (n, self1)
    ∧ m_cached_size_is_valid self1 = true
    ∧ ∀ w2 : world mem_adapter.mem_db,
        accessor.size 7%nat self1 w2 = (Returned (n, self1), w2).
Proof.
  apply (size_twice_hits_cache 7%nat (on_write_transaction_begin 7%nat accessor.fresh)
           two_accessors).
  vm_compute. reflexivity.
Defined.

(** X9 on the reference adapter: the accessor that cached the size 2 of
    "accounts" is bound to a new table and still answers 2. *)
Lemma init_keeps_the_size_cache_witness :
  epee.is_exclusive_mode_for_this_thread 7%nat (m_exclusive_runner caching_accessor)
  = true
  ∧ m_cached_size_is_valid caching_accessor = true
  ∧ ((p ← accessor.init "blocks" caching_accessor; accessor.size 7%nat p.2)
       two_accessors).1
    = Returned (2, accessor.with_tid 1 caching_accessor).
Proof.
  assert (Hx : epee.is_exclusive_mode_for_this_thread 7%nat
                 (m_exclusive_runner caching_accessor) = true)
    by (vm_compute; reflexivity).
  assert (Hv : m_cached_size_is_valid caching_accessor = true) by reflexivity.
  split; [exact Hx|]. split; [exact Hv|].
  pose proof (init_keeps_the_size_cache "blocks" 7%nat caching_accessor
                two_accessors Hx Hv) as [_ Hsize].
  rewrite Hsize. vm_compute. reflexivity.
Defined.

(** ** Keys read back from their bytes *)

Lemma substring_all (s : string) : substring 0 (String.length s) s = s.
Proof. induction s as [|ch s IH]; cbn; [done|]. by rewrite IH. Qed.

Section table_keys.
Context {A : Type}.
Implicit Types (w : world A).

(** X11: a string key is read back from the bytes and the length that
    [tkey_to_pointer] gives for it; a null pointer throws "pointer is
    null" whatever the length. *)
Theorem string_key_reads_back (key : string) (len : N) w :
  tkey_from_pointer_string (Some (tkey_to_pointer key))
      (N.of_nat (String.length (tkey_to_pointer key))) w
  = (Returned key, w)
  ∧ tkey_from_pointer_string None len w = (Thrown "pointer is null", w).
Proof.
  unfold tkey_from_pointer_string. run_methods. cbn.
  by rewrite Nat2N.id, substring_all.
Qed.

End table_keys.

(** ** The typed helpers of the broker *)

Section typed_helpers.
Context {A : Type} `{!i_db_adapter A}.
Context {K : Type} `{!table_key K}.
Implicit Types (w : world A).

(** X13: when the adapter does not find the key, [get_pod_object]
    returns false after its one adapter call and leaves [obj] as it
    was; [set_pod_object] returns what the adapter's [set] returned. *)
Theorem pod_object_helpers_report_the_adapter {T : Type} `{!pod T}
    (tid : table_id) (tkey : K) (v obj : T) w :
  let a := m_db_adapter_ptr (w_dbb w) in
  let key := tkey_to_pointer tkey in
  ((adapter_get tid key a).1.1 = false →
   bridge.get_pod_object tid tkey obj w
   = (Returned (false, obj),
      {| w_dbb := bridge.with_adapter (adapter_get tid key a).2 (w_dbb w);
         w_objects := w_objects w;
         w_trace := w_trace w ++ [ev_adapter (call_get tid key)] |}))
  ∧ bridge.set_pod_object tid tkey v w
    = (Returned (adapter_set tid key (pod_bytes v) a).1,
       {| w_dbb := bridge.with_adapter (adapter_set tid key (pod_bytes v) a).2 (w_dbb w);
          w_objects := w_objects w;
          w_trace := w_trace w ++ [ev_adapter (call_set tid key (pod_bytes v))] |}).
Proof.
  intros a key. subst a key. split.
  - run_methods. destruct (adapter_get _ _ _) as [[found buffer] a']. cbn.
    by intros ->.
  - run_methods. by destruct (adapter_set _ _ _ _).1.
Qed.

(** X14: with a codec that reads back what it wrote and an adapter that
    returns the bytes last stored, a [set_serializable_object] that
    succeeded is read back by [get_serializable_object].  When the
    adapter does not find the key, [get_serializable_object] returns
    false and leaves [obj] as it was, without consulting the codec. *)
Theorem serializable_object_round_trip {T : Type} `{!blob_codec T} :
  (codec_reads_back T → returns_last_stored A →
   ∀ (tid : table_id) (tkey : K) (v obj : T) w,
     (set_serializable_object tid tkey v w).1 = Returned true →
     (get_serializable_object tid tkey obj
        (after (set_serializable_object tid tkey v) w)).1 = Returned (true, v))
  ∧ (∀ (tid : table_id) (tkey : K) (obj : T) w,
       (adapter_get tid (tkey_to_pointer tkey) (m_db_adapter_ptr (w_dbb w))).1.1 = false →
       (get_serializable_object tid tkey obj w).1 = Returned (false, obj)).
Proof.
  unfold get_serializable_object, set_serializable_object. split.
  - intros Hcodec Hstored tid tkey v obj w. run_methods.
    intros [= Hset]. rewrite (Hstored _ _ _ _ Hset). cbn. by rewrite Hcodec.
  - intros tid tkey obj w. run_methods.
    destruct (adapter_get _ _ _) as [[found buffer] a']. cbn. by intros ->.
Qed.

End typed_helpers.

(** X13 on the reference adapter: "carol" is not in the table. *)
Lemma pod_object_helpers_report_the_adapter_witness :
  (mem_adapter.get 0 "carol" (m_db_adapter_ptr (w_dbb two_accessors))).1.1 = false
  ∧ (bridge.get_pod_object (pod0 := uint64_pod) 0 "carol"%string 9 two_accessors).1
    = Returned (false, 9).
Proof.
  assert (Hmiss : (adapter_get 0 (tkey_to_pointer "carol"%string)
                     (m_db_adapter_ptr (w_dbb two_accessors))).1.1 = false)
    by (vm_compute; reflexivity).
  split; [exact Hmiss|].
  pose proof (proj1 (pod_object_helpers_report_the_adapter (pod0 := uint64_pod)
                       0 "carol"%string 0 9 two_accessors) Hmiss) as Hget.
  by rewrite Hget.
Defined.

Lemma string_codec_reads_back : codec_reads_back (blob_codec0 := string_blob_codec) string.
Proof. by intros v obj. Qed.

(** X14 on the reference adapter, with strings as the objects. *)
Lemma serializable_object_round_trip_witness :
  (set_serializable_object (blob_codec0 := string_blob_codec)
     0 "bob"%string "hello"%string two_accessors).1 = Returned true
  ∧ (get_serializable_object (blob_codec0 := string_blob_codec)
       0 "bob"%string EmptyString
       (after (set_serializable_object (blob_codec0 := string_blob_codec)
                 0 "bob"%string "hello"%string) two_accessors)).1
    = Returned (true, "hello"%string)
  ∧ (get_serializable_object (blob_codec0 := string_blob_codec)
       0 "carol"%string "kept"%string two_accessors).1
    = Returned (false, "kept"%string).
Proof.
  assert (Hset : (set_serializable_object (blob_codec0 := string_blob_codec)
                    0 "bob"%string "hello"%string two_accessors).1 = Returned true)
    by (vm_compute; reflexivity).
  destruct (serializable_object_round_trip (A := mem_adapter.mem_db) (K := string)
              (blob_codec0 := string_blob_codec)) as [Hround Hmiss].
  split; [exact Hset|]. split.
  - exact (Hround string_codec_reads_back mem_adapter_returns_last_stored
             0 "bob"%string "hello"%string EmptyString two_accessors Hset).
  - apply Hmiss. vm_compute. reflexivity.
Defined.

(** ** Detached receivers *)

Section detached_receivers.
Context {A : Type} `{!i_db_adapter A}.
Implicit Types (w : world A) (c : receiver_ptr).

Lemma detach_container_receiver_after (receiver : receiver_ptr) w :
  let w' := after (bridge.detach_container_receiver receiver) w in
  m_attached_container_receivers (w_dbb w')
  = m_attached_container_receivers (w_dbb w) ∖ {[receiver]}
  ∧ w_objects w' = w_objects w
  ∧ w_trace w' = w_trace w
  ∧ m_db_adapter_ptr (w_dbb w') = m_db_adapter_ptr (w_dbb w).
Proof. intros w'. subst w'. unfold after. by rewrite detach_container_receiver_run. Qed.

Lemma begin_db_transaction_trace (thr : thread_id) (read_only_access : bool) w :
  w_trace (after (bridge.begin_db_transaction thr read_only_access) w)
  = w_trace w ++ ev_adapter (call_begin_transaction read_only_access)
      :: map (λ c, ev_notify c write_transaction_begin)
           (bridge.receivers_in_order (m_attached_container_receivers (w_dbb w))).
Proof.
  unfold after. rewrite begin_db_transaction_run. cbn [snd].
  rewrite deliver_all_trace. cbn [w_trace]. by rewrite <- app_assoc.
Qed.

Lemma abort_db_transaction_trace (thr : thread_id) w :
  w_trace (after (bridge.abort_db_transaction thr) w)
  = w_trace w ++ ev_adapter call_abort_transaction
      :: map (λ c, ev_notify c write_transaction_abort)
           (bridge.receivers_in_order (m_attached_container_receivers (w_dbb w))).
Proof.
  unfold after. rewrite abort_db_transaction_run. cbn [snd].
  rewrite deliver_all_trace. cbn [w_trace]. by rewrite <- app_assoc.
Qed.

Lemma commit_db_transaction_trace (thr : thread_id) w :
  w_trace (after (bridge.commit_db_transaction thr) w)
  = w_trace w ++ ev_adapter call_commit_transaction
      :: if (adapter_commit_transaction (m_db_adapter_ptr (w_dbb w))).1
         then map (λ c, ev_notify c write_transaction_commit)
                (bridge.receivers_in_order (m_attached_container_receivers (w_dbb w)))
         else [].
Proof.
  unfold after. rewrite commit_db_transaction_run.
  destruct (adapter_commit_transaction _).1; cbn [snd]; [|done].
  rewrite deliver_all_trace. cbn [w_trace]. by rewrite <- app_assoc.
Qed.

Lemma notifications_skip (receiver : receiver_ptr) (s : gset receiver_ptr)
    (n n' : notification) (call : adapter_call) :
  receiver ∉ s →
  ev_notify receiver n
  ∉ ev_adapter call :: map (λ c, ev_notify c n') (bridge.receivers_in_order s).
Proof.
  intros Hout [Hhead|Htail]%elem_of_cons; [done|].
  apply list_elem_of_fmap in Htail as (c & [= <- _] & Hc).
  by apply receivers_in_order_elem in Hc.
Qed.

(** X15: once a receiver is detached, the transaction methods deliver
    nothing to it: its object is as it was and no notification for it
    is in the trace.  Every other receiver is served by begin, abort
    and commit as it would have been without the detach, and commit
    throws or returns as it would have. *)
Theorem detached_receiver_is_not_notified
    (receiver : receiver_ptr) (thr : thread_id) (read_only_access : bool) w :
  let detached := after (bridge.detach_container_receiver receiver) w in
  let began := after (bridge.begin_db_transaction thr read_only_access) detached in
  let aborted := after (bridge.abort_db_transaction thr) detached in
  let committed := after (bridge.commit_db_transaction thr) detached in
  w_objects began !! receiver = w_objects w !! receiver
  ∧ w_objects aborted !! receiver = w_objects w !! receiver
  ∧ w_objects committed !! receiver = w_objects w !! receiver
  ∧ (∀ n, ev_notify receiver n ∉ drop (length (w_trace w)) (w_trace began))
  ∧ (∀ n, ev_notify receiver n ∉ drop (length (w_trace w)) (w_trace aborted))
  ∧ (∀ n, ev_notify receiver n ∉ drop (length (w_trace w)) (w_trace committed))
  ∧ (∀ c, c ≠ receiver →
       w_objects began !! c
       = w_objects (after (bridge.begin_db_transaction thr read_only_access) w) !! c)
  ∧ (∀ c, c ≠ receiver →
       w_objects aborted !! c
       = w_objects (after (bridge.abort_db_transaction thr) w) !! c)
  ∧ (∀ c, c ≠ receiver →
       w_objects committed !! c
       = w_objects (after (bridge.commit_db_transaction thr) w) !! c)
  ∧ (bridge.commit_db_transaction thr detached).1 = (bridge.commit_db_transaction thr w).1.
Proof.
  intros detached began aborted committed.
  destruct (detach_container_receiver_after receiver w) as (Hs & Ho & Ht & Ha).
  fold detached in Hs, Ho, Ht, Ha.
  assert (Hout : receiver ∉ m_attached_container_receivers (w_dbb detached))
    by (rewrite Hs; set_solver).
  subst began aborted committed.
  rewrite begin_db_transaction_objects, abort_db_transaction_objects,
    commit_db_transaction_objects, begin_db_transaction_trace,
    abort_db_transaction_trace, commit_db_transaction_trace.
  rewrite (bool_decide_eq_false_2 _ Hout), andb_false_r, Ho, Ht, !drop_app_length.
  split; [done|]. split; [done|]. split; [done|].
  split; [intros n; by apply notifications_skip|].
  split; [intros n; by apply notifications_skip|].
  split.
  - intros n. destruct (adapter_commit_transaction _).1.
    + by apply notifications_skip.
    + by intros [Hhead|Htail%elem_of_nil]%elem_of_cons.
  - assert (Hsame : ∀ c, c ≠ receiver →
      bool_decide (c ∈ m_attached_container_receivers (w_dbb w) ∖ {[receiver]})
      = bool_decide (c ∈ m_attached_container_receivers (w_dbb w))).
    { intros c Hne. apply bool_decide_ext. set_solver. }
    split; [|split; [|split]].
    + intros c Hne.
      by rewrite !begin_db_transaction_objects, Hs, Ho, (Hsame c Hne).
    + intros c Hne.
      by rewrite !abort_db_transaction_objects, Hs, Ho, (Hsame c Hne).
    + intros c Hne.
      by rewrite !commit_db_transaction_objects, Hs, Ho, Ha, (Hsame c Hne).
    + rewrite !commit_db_transaction_run, Ha.
      by destruct (adapter_commit_transaction _).1.
Qed.

End detached_receivers.
